(** * Payment and balance transfer: [src/utils.js] and the handlers of
    [src/app.js] that move money

    The development embeds [transfer] (utils.js), the handler of
    [POST /jobs/:job_id/pay] and the handler of
    [POST /balances/deposit/:userId] (app.js) as functions over an explicit
    store, and proves what they do to balances and jobs.

    Conventions.
    - Tables are finite maps keyed by the primary key [id].
    - Monetary amounts and JavaScript numbers are rationals ([Q]).
    - A handler is modelled from the point where the [getProfile]
      middleware has let the request through.
    - The first embedding reads a request as the store does (an id is a
      primary key, an amount is a number) and computes exactly.  The
      second one, [Raw], takes the ids as the strings and the amount as
      the JSON value of the request, and rounds the result of every
      operation; what is stated of sums of balances, of the cap and of
      the ids of a deposit is stated of [Raw].
    - Asynchronous code is a state-passing computation that either resolves
      with a value or rejects with an error.  The storage layer may refuse
      a write: which statements it refuses is a parameter ([fault]). *)

From Stdlib Require Import ZArith QArith String List Lia.
From stdpp Require Import base option gmap fin_maps.

Local Open Scope Z_scope.

(** ** JavaScript values that reach the money code *)

Module Js.

(** The values of [req.body.amount], of [Job.sum] and of a property that
    an object does not have. *)
Inductive Value :=
| undefined
| null
| NaN
| num (q : Q).

(** [ToNumber]. *)
Definition to_number (v : Value) : Value :=
  match v with
  | undefined => NaN
  | null => num 0
  | NaN => NaN
  | num q => num q
  end.

(** [ToBoolean]: [undefined], [null], [NaN] and [0] are falsy. *)
Definition truthy (v : Value) : bool :=
  match v with
  | undefined | null | NaN => false
  | num q => negb (Qeq_bool q 0)
  end.

(** [a * b]. *)
Definition mul (a b : Value) : Value :=
  match to_number a, to_number b with
  | num x, num y => num (x * y)
  | _, _ => NaN
  end.

(** [a / b]; a zero divisor (an infinity or [NaN] in JavaScript) is
    reported as [NaN]: the only divisor in the program is the literal
    [100]. *)
Definition div (a b : Value) : Value :=
  match to_number a, to_number b with
  | num x, num y => if Qeq_bool y 0 then NaN else num (x / y)
  | _, _ => NaN
  end.

(** [a < b], [a <= b], [a > b]: false as soon as one side is [NaN]. *)
Definition lt (a b : Value) : bool :=
  match to_number a, to_number b with
  | num x, num y => negb (Qle_bool y x)
  | _, _ => false
  end.

Definition le (a b : Value) : bool :=
  match to_number a, to_number b with
  | num x, num y => Qle_bool x y
  | _, _ => false
  end.

Definition gt (a b : Value) : bool := lt b a.

End Js.

(** ** Data model *)

(** Modelled from the spec: the table declarations of [src/model.js]
    ([Profile], [Contract], [Job]) are not among the sources at hand.  The
    columns are those of the specification's data model that the money code
    reads or writes, under the names [app.js] and [utils.js] use for them
    ([balance], [ClientId], [ContractorId], [price], [paid],
    [paymentDate]); the primary key [id] is the key of the table. *)
Inductive ProfileType := client | contractor.

(** Modelled from the spec: a profile row, without the columns that the
    money code ignores. *)
Record Profile := mkProfile {
  balance : Q;
  type : ProfileType
}.

(** Modelled from the spec: a contract row; its status plays no part in a
    payment or a deposit. *)
Record Contract := mkContract {
  ClientId : Z;
  ContractorId : Z
}.

(** Modelled from the spec: [paid] is a nullable boolean column, [null]
    for a job that has not been paid; [paymentDate] a nullable date (a
    timestamp). *)
Record Job := mkJob {
  ContractId : Z;
  price : Q;
  paid : option bool;
  paymentDate : option Z
}.

Record DB := mkDB {
  Profiles : gmap Z Profile;
  Contracts : gmap Z Contract;
  Jobs : gmap Z Job
}.

(** ** The storage layer (Sequelize as the handlers use it) *)

(** [sequelize.literal(`balance - ${amount}`)] and
    [sequelize.literal(`balance + ${amount}`)]. *)
Inductive Literal :=
| balance_minus (amount : Q)
| balance_plus (amount : Q).

(** The two UPDATE statements of the program. *)
Inductive Statement :=
| ProfileUpdate (values : Literal) (where_id : Z)
| JobUpdate (paid_value : bool) (paymentDate_value : Z) (where_id : Z).

Definition set_balance (l : Literal) (p : Profile) : Profile :=
  match l with
  | balance_minus amount => mkProfile (balance p - amount) (type p)
  | balance_plus amount => mkProfile (balance p + amount) (type p)
  end.

Definition set_paid (v : bool) (date : Z) (j : Job) : Job :=
  mkJob (ContractId j) (price j) (Some v) (Some date).

(** An UPDATE changes the row with the given primary key and no row when
    there is none. *)
Definition exec (s : Statement) (d : DB) : DB :=
  match s with
  | ProfileUpdate values i =>
      mkDB (alter (set_balance values) i (Profiles d)) (Contracts d) (Jobs d)
  | JobUpdate v date i =>
      mkDB (Profiles d) (Contracts d) (alter (set_paid v date) i (Jobs d))
  end.

(** A transaction handle; the world holds the committed tables and, for
    every open transaction, the statements issued on it so far. *)
Definition Transaction := nat.

Record World := mkWorld {
  db : DB;
  pending : gmap nat (list Statement);
  next_transaction : Transaction
}.

(** What the handler answers: the status given to [res] and the
    [message] of the body, when there is one. *)
Inductive Reply := Sent (status : Z) (message : option string).

(** What an [async] function can throw: a [TypeError] (a property read on
    [null]), an error of the storage layer, and the error Node raises
    when a second answer is attempted after a first one has gone out
    ([ERR_HTTP_HEADERS_SENT]); the answer that went out is recorded. *)
Inductive Error :=
| TypeError
| DatabaseError
| HeadersSent (first : Reply).

Inductive Outcome (A : Type) :=
| Resolved (a : A)
| Rejected (e : Error).
Arguments Resolved {A} a.
Arguments Rejected {A} e.

(** An [async] computation. *)
Definition Async (A : Type) : Type := World → Outcome A * World.

Global Instance Async_ret : MRet Async := λ A a w, (Resolved a, w).

(** [await]: a rejection propagates as an exception. *)
Global Instance Async_bind : MBind Async := λ A B k m w,
  match m w with
  | (Resolved a, w') => k a w'
  | (Rejected e, w') => (Rejected e, w')
  end.

Definition throw {A} (e : Error) : Async A := λ w, (Rejected e, w).

(** [try { ... } catch (error) { ... }]: the outcome is handed to the
    continuation. *)
Definition try_catch {A} (m : Async A) : Async (Outcome A) := λ w,
  let '(o, w') := m w in (Resolved o, w').

Definition void {A} (m : Async A) : Async unit := m ≫= λ _, mret tt.

(** [res.send(status).json({ message })].  Given a number, [res.send]
    sends that status with its standard text as the body ("Bad Request"
    for 400) and returns [res]; the chained [json], called with the
    headers out, throws.  The message is never sent and the handler
    rejects. *)
Definition res_send_json {A} (status : Z) (message : string) : Async A :=
  throw (HeadersSent (Sent status None)).

(** [o.f] on a value that may be [null]. *)
Definition prop {A B} (o : option A) (f : A → B) : Async B :=
  match o with
  | Some a => mret (f a)
  | None => throw TypeError
  end.

(** [Promise.all]: every promise of the array has been started and runs to
    its end, whatever the others do; the result rejects when one of them
    rejects. *)
Fixpoint Promise_all (ps : list (Async unit)) : Async unit := λ w,
  match ps with
  | [] => (Resolved tt, w)
  | p :: ps' =>
      let '(o, w1) := p w in
      let '(os, w2) := Promise_all ps' w1 in
      (match o with Rejected e => Rejected e | Resolved _ => os end, w2)
  end.

(** [sequelize.transaction()] without a callback: a transaction is opened
    and handed to the caller, who has to commit it or roll it back. *)
Definition sequelize_transaction_begin : Async Transaction := λ w,
  let t := next_transaction w in
  (Resolved t, mkWorld (db w) (<[t := []]> (pending w)) (S t)).

Definition commit (t : Transaction) : Async unit := λ w,
  let stmts := default [] (pending w !! t) in
  (Resolved tt,
   mkWorld (foldl (λ d s, exec s d) (db w) stmts) (delete t (pending w))
           (next_transaction w)).

Definition rollback (t : Transaction) : Async unit := λ w,
  (Resolved tt, mkWorld (db w) (delete t (pending w)) (next_transaction w)).

(** [sequelize.transaction(async (transaction) => ...)]: commit when the
    callback resolves, roll back and rethrow when it rejects. *)
Definition sequelize_transaction {A} (callback : Transaction → Async A)
  : Async A :=
  t ← sequelize_transaction_begin;
  r ← try_catch (callback t);
  match r with
  | Resolved a => commit t ;; mret a
  | Rejected e => rollback t ;; throw e
  end.

(** The row [Job.findOne] builds for the pay handler: the job, its
    contract and the contract's two profiles ([include]); a profile that
    the contract names and the table lacks comes back [null]. *)
Record ProfileRow := mkProfileRow {
  profile_id : Z;
  profile : Profile
}.

Record ContractRow := mkContractRow {
  contract : Contract;
  Client : option ProfileRow;
  Contractor : option ProfileRow
}.

Record JobRow := mkJobRow {
  job_id : Z;
  job : Job;
  job_Contract : ContractRow
}.

(** The SQL aggregate [SUM] over the rows that satisfy a condition. *)
Definition sum_rows (field : Job → Q) (cond : Job → bool)
    (rows : gmap Z Job) : Js.Value :=
  map_fold (λ _ j acc,
              if cond j
              then match acc with
                   | Js.num s => Js.num (field j + s)
                   | _ => Js.num (field j)
                   end
              else acc)
           Js.null rows.

(** The options object of [Model.update]. *)
Record UpdateOptions := mkOptions {
  where_id : Z;
  transaction : option Transaction
}.

Section Storage.

(** The statements the storage layer refuses. *)
Variable fault : Statement → bool.

(** A statement runs on the transaction named in its options, and on its
    own (committed at once) when the options name none. *)
Definition query (s : Statement) (t : option Transaction) : Async unit :=
  λ w,
  if fault s then (Rejected DatabaseError, w)
  else match t with
       | None => (Resolved tt, mkWorld (exec s (db w)) (pending w)
                                       (next_transaction w))
       | Some t =>
           match pending w !! t with
           | Some stmts =>
               (Resolved tt, mkWorld (db w) (<[t := stmts ++ [s]]> (pending w))
                                     (next_transaction w))
           | None => (Rejected DatabaseError, w)
           end
       end.

(** [Model.update(values, options)].  The method has these two
    parameters: a value passed in third position is not read. *)
Definition Profile_update (values : Literal) (options : UpdateOptions)
    (_ : Transaction) : Async unit :=
  query (ProfileUpdate values (where_id options)) (transaction options).

Definition Job_update (values : bool * Z) (options : UpdateOptions)
    (_ : Transaction) : Async unit :=
  query (JobUpdate (fst values) (snd values) (where_id options))
        (transaction options).

(** *** utils.js *)

(** [transfer(from, to, amount, transaction)]. *)
Definition transfer (from to : Z) (amount : Q)
    (transaction : option Transaction) : Async Transaction :=
  t ← match transaction with
      | Some t => mret t
      | None => sequelize_transaction_begin
      end;
  Promise_all [
    Profile_update (balance_minus amount) (mkOptions from None) t;
    Profile_update (balance_plus amount) (mkOptions to None) t
  ] ;;
  mret t.

(** *** app.js *)

Definition Profile_row (d : DB) (i : Z) : option ProfileRow :=
  mkProfileRow i <$> Profiles d !! i.

(** [Job.findOne({ where: { id: jobId, '$Contract.ClientId$': profileId },
    include: [Contract + Client + Contractor] })]. *)
Definition Job_findOne (jobId profileId : Z) : Async (option JobRow) := λ w,
  (Resolved
     (j ← Jobs (db w) !! jobId;
      c ← Contracts (db w) !! ContractId j;
      if decide (ClientId c = profileId)
      then Some (mkJobRow jobId j
                   (mkContractRow c (Profile_row (db w) (ClientId c))
                                    (Profile_row (db w) (ContractorId c))))
      else None),
   w).

(** [ToBoolean] of [job.paid], which is [null], [false] or [true]. *)
Definition job_paid (j : Job) : bool := default false (paid j).

(** [job.value]: a job has the attributes [ContractId], [price], [paid]
    and [paymentDate]; reading any other property gives [undefined]. *)
Definition job_value (j : Job) : Js.Value := Js.undefined.

(** The handler of [POST /jobs/:job_id/pay]; [now] is [new Date()]. *)
Definition payJob (now : Z) (jobId profileId : Z) : Async Reply :=
  found ← Job_findOne jobId profileId;
  c ← prop found job_Contract;
  let client := Client c in
  let contractor := Contractor c in
  match found with
  | None => mret (Sent 404 None)
  | Some row =>
      if job_paid (job row)
      then res_send_json 400 "Job already paid"
      else
        client_balance ← prop client (λ p, Js.num (balance (profile p)));
        if Js.lt client_balance (job_value (job row))
        then res_send_json 400 "Insufficient balance"
        else
          r ← try_catch
                (sequelize_transaction (λ transaction,
                   client_id ← prop client profile_id;
                   contractor_id ← prop contractor profile_id;
                   Promise_all [
                     void (transfer client_id contractor_id
                                    (price (job row)) (Some transaction));
                     Job_update (true, now) (mkOptions (job_id row) None)
                                transaction
                   ]));
          match r with
          | Rejected _ =>
              mret (Sent 500 (Some "Internal server error"%string))
          | Resolved _ => mret (Sent 200 None)
          end
  end.

(** [SELECT SUM(field) ... WHERE ...]: [null] when no row matches. *)
Definition Job_sum (field : Job → Q) (where_ : DB → Job → bool)
    : Async Js.Value := λ w,
  (Resolved (sum_rows field (where_ (db w)) (Jobs (db w))), w).

(** [{ '$Contract.ClientId$': profileId, paid: null }]: the jobs of the
    contracts of which [profileId] is the client and that are not paid
    ([GET /jobs/unpaid] selects unpaid jobs by [paid: null] as well). *)
Definition unpaid_of (profileId : Z) (d : DB) (j : Job) : bool :=
  match Contracts d !! ContractId j with
  | Some c => bool_decide (ClientId c = profileId)
  | None => false
  end && bool_decide (paid j = None).

(** [(25 * totalAmountToBePaid) / 100]. *)
Definition maxDepositValue (totalAmountToBePaid : Js.Value) : Js.Value :=
  Js.div (Js.mul (Js.num 25) totalAmountToBePaid) (Js.num 100).

(** The handler of [POST /balances/deposit/:userId].  In the [catch]
    branch the 500 answer is sent first; it is the reply. *)
Definition deposit (userId profileId : Z) (amount : Js.Value)
    : Async Reply :=
  if bool_decide (userId = profileId)
  then mret (Sent 400 (Some "Cannot deposit to yourself"%string))
  else if negb (Js.truthy amount) || Js.le amount (Js.num 0)
  then mret (Sent 400 (Some "Invalid deposit amount"%string))
  else
    totalAmountToBePaid ← Job_sum price (unpaid_of profileId);
    if Js.gt amount (maxDepositValue totalAmountToBePaid)
    then mret (Sent 400 (Some
           "Cannot deposit more than 25% of total of unpaid jobs"%string))
    else
      match amount with
      | Js.num q =>
          r ← try_catch (transfer profileId userId q None);
          match r with
          | Rejected _ =>
              mret (Sent 500 (Some "Internal server error"%string))
          | Resolved _ => mret (Sent 200 None)
          end
      | _ => throw TypeError  (* not reached: such an amount is falsy *)
      end.

End Storage.

(** ** Vocabulary of the specification *)

(** A storage layer that accepts every statement. *)
Definition no_fault : Statement → bool := λ _, false.

(** The error kinds, as the replies the handlers give for them. *)
Definition Ok : Reply := Sent 200 None.
Definition JobNotFound : Reply := Sent 404 None.
Definition AlreadyPaid : Reply := Sent 400 (Some "Job already paid"%string).
Definition InsufficientBalance : Reply :=
  Sent 400 (Some "Insufficient balance"%string).
Definition SelfDepositForbidden : Reply :=
  Sent 400 (Some "Cannot deposit to yourself"%string).
Definition InvalidAmount : Reply :=
  Sent 400 (Some "Invalid deposit amount"%string).
Definition DepositExceedsCap : Reply :=
  Sent 400 (Some
    "Cannot deposit more than 25% of total of unpaid jobs"%string).
Definition InternalError : Reply :=
  Sent 500 (Some "Internal server error"%string).

(** The sum of all balances in the system. *)
Definition total_balance (d : DB) : Q :=
  map_fold (λ _ p acc, (balance p + acc)%Q) 0%Q (Profiles d).

(** The total that the deposit handler sums for a payer, computed
    exactly: [price] over the jobs that [unpaid_of] selects, those whose
    contract's client is the payer and whose [paid] column is [null]. *)
Definition outstanding (d : DB) (payerId : Z) : Q :=
  map_fold
    (λ _ j acc, if unpaid_of payerId d j then (price j + acc)%Q else acc)
    0%Q (Jobs d).


(** A sequence of transfers, each awaited before the next one starts. *)
Fixpoint transfers (fault : Statement → bool) (calls : list (Z * Z * Q))
    : Async unit :=
  match calls with
  | [] => mret tt
  | (from, to, amount) :: calls' =>
      transfer fault from to amount None ;; transfers fault calls'
  end.

(** Successive calls of the pay handler for one job by one profile, at the
    given times; the replies are collected. *)
Fixpoint payJob_calls (fault : Statement → bool) (nows : list Z)
    (jobId profileId : Z) (w : World) : list (Outcome Reply) * World :=
  match nows with
  | [] => ([], w)
  | now :: nows' =>
      let '(o, w1) := payJob fault now jobId profileId w in
      let '(os, w2) := payJob_calls fault nows' jobId profileId w1 in
      (o :: os, w2)
  end.

(** A store used in the examples: client 1 and contractor 2, bound by
    contract 1, whose job 1 is not paid. *)
Definition store (client_balance contractor_balance job_price : Q) : World :=
  mkWorld
    (mkDB (<[1 := mkProfile client_balance client]>
             (<[2 := mkProfile contractor_balance contractor]> ∅))
          (<[1 := mkContract 1 2]> ∅)
          (<[1 := mkJob 1 job_price None None]> ∅))
    ∅ 0%nat.

(** What a statement leaves in the tables when it is issued outside a
    transaction: nothing when the storage layer refuses it. *)
Definition applied (fault : Statement → bool) (s : Statement) (d : DB) : DB :=
  if fault s then d else exec s d.

Definition settle {A} (faulty : bool) (a : A) : Outcome A :=
  if faulty then Rejected DatabaseError else Resolved a.

(** Unfolds the plumbing of [Async]. *)
Ltac run_async :=
  repeat (unfold applied, InternalError, Ok, mbind, mret, Async_bind,
            Async_ret, prop, try_catch, sequelize_transaction, void, transfer,
            Job_update, Profile_update, query, Promise_all,
            sequelize_transaction_begin, commit, rollback, throw; cbn).

(** ** The reading handlers of app.js *)

(** What a reading handler answers: a JSON body, or a bare status. *)
Inductive Answer (A : Type) :=
| Json (body : A)
| Status (code : Z).
Arguments Json {A} body.
Arguments Status {A} code.

(** [Contract.findOne({ where: { id, ContractorId: profileId } })]. *)
Definition Contract_findOne (id profileId : Z) : Async (option Contract) :=
  λ w,
  (Resolved
     (c ← Contracts (db w) !! id;
      if decide (ContractorId c = profileId) then Some c else None),
   w).

(** The handler of [GET /contracts/:id]. *)
Definition getContract (id profileId : Z) : Async (Answer Contract) :=
  found ← Contract_findOne id profileId;
  match found with
  | None => mret (Status 404)
  | Some c => mret (Json c)
  end.

(** [{ [Op.or]: [{ '$Contract.ContractorId$': profileId },
    { '$Contract.ClientId$': profileId }], paid: null }]. *)
Definition unpaid_for (profileId : Z) (d : DB) (j : Job) : bool :=
  match Contracts d !! ContractId j with
  | Some c =>
      bool_decide (ContractorId c = profileId)
      || bool_decide (ClientId c = profileId)
  | None => false
  end && bool_decide (paid j = None).

(** [Job.findAll({ where, include: [Contract] })]: the rows that satisfy
    the condition, by primary key (the query asks for no order). *)
Definition Job_findAll (where_ : DB → Job → bool) : Async (gmap Z Job) :=
  λ w,
  (Resolved (filter (λ row, where_ (db w) row.2 = true) (Jobs (db w))), w).

(** The handler of [GET /jobs/unpaid]: the body of [res.json(jobs)]. *)
Definition getUnpaidJobs (profileId : Z) : Async (gmap Z Job) :=
  Job_findAll (unpaid_for profileId).



(** ** The request as it arrives, the numbers as the store computes them

    The handlers above take a request once the store has read it: an id
    is the primary key it denotes, an amount is a number, and arithmetic is
    exact.  [Raw] embeds [transfer] and the deposit handler without these
    three readings:
    - numbers are binary64: they are kept as the rationals they stand for,
      and the result of every operation is rounded ([fl]; [b64] is the
      rounding of binary64, the identity is exact arithmetic);
    - [req.params.userId] and the [profile_id] header are strings, that
      the handler compares as strings and that the store matches against
      primary keys ([row_id]);
    - [req.body.amount] is any JSON value. *)

(** The nearest integer to [n / d], ties to the even one ([0 <= n],
    [0 < d]). *)
Definition round_half_even (n d : Z) : Z :=
  let q := n / d in
  match 2 * (n mod d) ?= d with
  | Lt => q
  | Gt => q + 1
  | Eq => if Z.even q then q else q + 1
  end.

(** The exponent [e] of the binary64 nearest to [n / d]: the significand
    [n / d / 2^e] lies in [[2^52, 2^53)], and [e] is not below that of the
    subnormal numbers. *)
Definition b64_exponent (n d : Z) : Z :=
  let e0 := Z.log2 n - Z.log2 d - 52 in
  let significand :=
    if 0 <=? e0 then n / (d * 2 ^ e0) else (n * 2 ^ (- e0)) / d in
  Z.max (if significand <? 2 ^ 52 then e0 - 1 else e0) (-1074).

(** Rounding to the nearest binary64, ties to even, as a fraction in
    lowest terms.  A result beyond the largest binary64 (an infinity) is
    not represented. *)
Definition b64 (q : Q) : Q :=
  let r := Qred q in
  let n := Z.abs (Qnum r) in
  let d := Zpos (Qden r) in
  if n =? 0 then 0%Q
  else
    let e := b64_exponent n d in
    let m :=
      if 0 <=? e then round_half_even n (d * 2 ^ e)
      else round_half_even (n * 2 ^ (- e)) d in
    if 0 <=? e then inject_Z (Z.sgn (Qnum r) * m * 2 ^ e)
    else Qred (Qmake (Z.sgn (Qnum r) * m) (Z.to_pos (2 ^ (- e)))).

(** Exact arithmetic: nothing is rounded. *)
Definition exact (q : Q) : Q := q.

(** The integer that a text of decimal digits denotes: one reading of ids
    by the store, enough for the examples ("01" and "1" are the same
    row); a text with another character denotes no row here. *)
Fixpoint decimal_digits (s : string) (acc : Z) : option Z :=
  match s with
  | EmptyString => Some acc
  | String c s' =>
      let n := Z.of_nat (Ascii.nat_of_ascii c) - 48 in
      if (0 <=? n) && (n <=? 9) then decimal_digits s' (10 * acc + n)
      else None
  end.

Definition decimal_id (s : string) : option Z :=
  match s with
  | EmptyString => None
  | _ => decimal_digits s 0
  end.

Module Raw.

(** [req.body.amount]: a number, or any other value (nothing, [null], a
    string, a boolean, an array, an object), of which the handler uses
    [ToBoolean] (in [!amount]), [ToNumber] (in [amount <= 0] and
    [amount > maxDepositValue]; [None] is [NaN]) and the text that the
    template literal splices into the SQL. *)
Inductive Amount :=
| number (q : Q)
| other (truthy : bool) (to_number : option Q) (text : string).

(** [!amount]. *)
Definition falsy (a : Amount) : bool :=
  match a with
  | number q => Qeq_bool q 0
  | other t _ _ => negb t
  end.

Definition to_number (a : Amount) : option Q :=
  match a with
  | number q => Some q
  | other _ n _ => n
  end.

(** [amount <= b] and [amount > b] against a number or [NaN]. *)
Definition le (a : Amount) (b : Js.Value) : bool :=
  match to_number a, Js.to_number b with
  | Some x, Js.num y => Qle_bool x y
  | _, _ => false
  end.

Definition gt (a : Amount) (b : Js.Value) : bool :=
  match to_number a, Js.to_number b with
  | Some x, Js.num y => negb (Qle_bool x y)
  | _, _ => false
  end.

(** [sequelize.literal(`balance - ${amount}`)] and
    [sequelize.literal(`balance + ${amount}`)]. *)
Inductive Literal :=
| balance_minus (amount : Amount)
| balance_plus (amount : Amount).

(** [UPDATE Profiles SET balance = <literal> WHERE id = <id>]; the id is
    the primary key that the store reads in the value given, if any. *)
Inductive Statement :=
| ProfileUpdate (values : Literal) (where_id : option Z).

(** The row with the given key gets a new balance; no row changes when
    there is no such row. *)
Definition update_balance (f : Q → Q) (i : option Z) (d : DB) : DB :=
  match i with
  | Some i =>
      mkDB (alter (λ p, mkProfile (f (balance p)) (type p)) i (Profiles d))
           (Contracts d) (Jobs d)
  | None => d
  end.

Section Store.

(** The rounding of the arithmetic. *)
Variable fl : Q → Q.

(** The primary key that the store reads in an id given as a string. *)
Variable row_id : string → option Z.

(** What the store does with an UPDATE into which something else than a
    number has been spliced: the tables it leaves, or [None] when it
    refuses the statement. *)
Variable splice : Statement → DB → option DB.

(** The statements the storage layer refuses. *)
Variable fault : Statement → bool.

(** [25 * total] and [x / 100] on what [Job.sum] returns. *)
Definition mul (a b : Js.Value) : Js.Value :=
  match Js.to_number a, Js.to_number b with
  | Js.num x, Js.num y => Js.num (fl (x * y))
  | _, _ => Js.NaN
  end.

Definition div (a b : Js.Value) : Js.Value :=
  match Js.to_number a, Js.to_number b with
  | Js.num x, Js.num y => if Qeq_bool y 0 then Js.NaN else Js.num (fl (x / y))
  | _, _ => Js.NaN
  end.

(** The SQL aggregate [SUM] over the rows that satisfy a condition,
    [null] when there is none, as a sum of which every addition is
    rounded.  What is proved of the cap rests on the value of the sum
    only, not on the order of the additions. *)
Definition sum_rows (field : Job → Q) (cond : Job → bool)
    (rows : gmap Z Job) : Js.Value :=
  map_fold (λ _ j acc,
              if cond j
              then match acc with
                   | Js.num s => Js.num (fl (field j + s))
                   | _ => Js.num (field j)
                   end
              else acc)
           Js.null rows.

(** The tables after a statement, [None] when the store refuses it.  A
    number is spliced as the numeral that the store reads back as that
    number. *)
Definition run (s : Statement) (d : DB) : option DB :=
  match s with
  | ProfileUpdate (balance_minus (number q)) i =>
      Some (update_balance (λ b, fl (b - q)) i d)
  | ProfileUpdate (balance_plus (number q)) i =>
      Some (update_balance (λ b, fl (b + q)) i d)
  | _ => splice s d
  end.

(** A statement issued outside any transaction. *)
Definition query (s : Statement) : Async unit := λ w,
  if fault s then (Rejected DatabaseError, w)
  else match run s (db w) with
       | Some d => (Resolved tt, mkWorld d (pending w) (next_transaction w))
       | None => (Rejected DatabaseError, w)
       end.

(** [Profile.update(values, { where: { id } }, t)]: the options name no
    transaction and the third argument is not read (see
    [Profile_update] above), so the statement runs outside any
    transaction. *)
Definition Profile_update (values : Literal) (where_id : option Z)
    (_ : Transaction) : Async unit :=
  query (ProfileUpdate values where_id).

(** [transfer(from, to, amount, transaction)] of utils.js; [from] and
    [to] are given as the rows that the store reads in them. *)
Definition transfer (from to : option Z) (amount : Amount)
    (transaction : option Transaction) : Async Transaction :=
  t ← match transaction with
      | Some t => mret t
      | None => sequelize_transaction_begin
      end;
  Promise_all [
    Profile_update (balance_minus amount) from t;
    Profile_update (balance_plus amount) to t
  ] ;;
  mret t.

(** [{ '$Contract.ClientId$': profileId, paid: null }]. *)
Definition unpaid_of (profileId : option Z) (d : DB) (j : Job) : bool :=
  match profileId, Contracts d !! ContractId j with
  | Some i, Some c => bool_decide (ClientId c = i)
  | _, _ => false
  end && bool_decide (paid j = None).

Definition Job_sum (field : Job → Q) (where_ : DB → Job → bool)
    : Async Js.Value := λ w,
  (Resolved (sum_rows field (where_ (db w)) (Jobs (db w))), w).

(** [(25 * totalAmountToBePaid) / 100]. *)
Definition maxDepositValue (totalAmountToBePaid : Js.Value) : Js.Value :=
  div (mul (Js.num 25) totalAmountToBePaid) (Js.num 100).

(** The handler of [POST /balances/deposit/:userId] of app.js.  In the
    [catch] branch the 500 answer is sent first; it is the reply: the
    [res.status(200).send()] that follows has no body, sets no header and
    ends a response that has ended. *)
Definition deposit (userId profileId : string) (amount : Amount)
    : Async Reply :=
  if String.eqb userId profileId
  then mret (Sent 400 (Some "Cannot deposit to yourself"%string))
  else if falsy amount || le amount (Js.num 0)
  then mret (Sent 400 (Some "Invalid deposit amount"%string))
  else
    totalAmountToBePaid ← Job_sum price (unpaid_of (row_id profileId));
    if gt amount (maxDepositValue totalAmountToBePaid)
    then mret (Sent 400 (Some
           "Cannot deposit more than 25% of total of unpaid jobs"%string))
    else
      r ← try_catch
            (transfer (row_id profileId) (row_id userId) amount None);
      match r with
      | Rejected _ =>
          mret (Sent 500 (Some "Internal server error"%string))
      | Resolved _ => mret (Sent 200 None)
      end.

End Store.

(** A storage layer that accepts every statement, and a store that
    refuses every statement into which something else than a number has
    been spliced. *)
Definition no_fault : Statement → bool := λ _, false.
Definition no_splice : Statement → DB → option DB := λ _ _, None.

(** A sequence of transfers of numbers, each awaited before the next one
    starts. *)
Fixpoint transfers (fl : Q → Q) (fault : Statement → bool)
    (calls : list (Z * Z * Q)) : Async unit :=
  match calls with
  | [] => mret tt
  | (from, to, amount) :: calls' =>
      transfer fl no_splice fault (Some from) (Some to) (number amount) None
      ;; transfers fl fault calls'
  end.

(** The two statements of a transfer of a number, and those of a list of
    transfers. *)
Definition statements_of (call : Z * Z * Q) : list Statement :=
  let '(from, to, amount) := call in
  [ProfileUpdate (balance_minus (number amount)) (Some from);
   ProfileUpdate (balance_plus (number amount)) (Some to)].

(** The store runs each UPDATE as one step: the tables after a schedule
    of statements of transfers of numbers. *)
Definition run_schedule (fl : Q → Q) (schedule : list Statement) (d : DB)
    : DB :=
  foldl (λ d s, default d (run fl no_splice s d)) d schedule.

(** The row that a statement names. *)
Definition target (s : Statement) : option Z :=
  match s with
  | ProfileUpdate _ i => i
  end.

End Raw.

(** ** Vocabulary for the rounded arithmetic *)

(** The tables after the debit and after the credit of a number. *)
Definition debited (fl : Q → Q) (q : Q) (i : option Z) (d : DB) : DB :=
  Raw.update_balance (λ b, fl (b - q)%Q) i d.

Definition credited (fl : Q → Q) (q : Q) (i : option Z) (d : DB) : DB :=
  Raw.update_balance (λ b, fl (b + q)%Q) i d.

(** What a statement leaves in the tables: nothing when the storage layer
    refuses it. *)
Definition kept (refused : bool) (f : DB → DB) (d : DB) : DB :=
  if refused then d else f d.

(** No update of a sequence of transfers is rounded: each [balance -
    amount] and [balance + amount] is the number that the store writes. *)
Fixpoint exact_updates (fl : Q → Q) (calls : list (Z * Z * Q)) (d : DB)
    : Prop :=
  match calls with
  | [] => True
  | (from, to, amount) :: calls' =>
      (∀ p, Profiles d !! from = Some p →
            (fl (balance p - amount) == balance p - amount)%Q) ∧
      (∀ p, Profiles d !! to = Some p →
            (fl (balance p + amount) == balance p + amount)%Q) ∧
      exact_updates fl calls'
        (credited fl amount (Some to) (debited fl amount (Some from) d))
  end.




(** 10^21, a binary64. *)
Definition e21 : Q := inject_Z (10 ^ 21).



(** What a statement of a schedule does to the row [i] of the profiles,
    given as the result of the lookup. *)
Definition row_step (fl : Q → Q) (i : Z) (s : Raw.Statement)
    (r : option Profile) : option Profile :=
  match s with
  | Raw.ProfileUpdate (Raw.balance_minus (Raw.number q)) (Some k) =>
      if decide (k = i)
      then (λ p, mkProfile (fl (balance p - q)%Q) (type p)) <$> r
      else r
  | Raw.ProfileUpdate (Raw.balance_plus (Raw.number q)) (Some k) =>
      if decide (k = i)
      then (λ p, mkProfile (fl (balance p + q)%Q) (type p)) <$> r
      else r
  | _ => r
  end.

(** The statement of a transfer on the row [i]: the debit when [i] is the
    source, the credit otherwise. *)
Definition statement_on (i : Z) (call : Z * Z * Q) : Raw.Statement :=
  let '(from, to, amount) := call in
  if decide (from = i)
  then Raw.ProfileUpdate (Raw.balance_minus (Raw.number amount)) (Some from)
  else Raw.ProfileUpdate (Raw.balance_plus (Raw.number amount)) (Some to).

(** The debit and the credit of a number on a row. *)
Definition debit (i : Z) (q : Q) : Raw.Statement :=
  Raw.ProfileUpdate (Raw.balance_minus (Raw.number q)) (Some i).

Definition credit (i : Z) (q : Q) : Raw.Statement :=
  Raw.ProfileUpdate (Raw.balance_plus (Raw.number q)) (Some i).

(** One store, for the examples: a statement into which the text
    "balance" has been spliced reads the column, [balance - balance] and
    [balance + balance]; it refuses any other text. *)
Definition splice_column (fl : Q → Q) (s : Raw.Statement) (d : DB)
    : option DB :=
  match s with
  | Raw.ProfileUpdate (Raw.balance_minus (Raw.other _ _ text)) i =>
      if String.eqb text "balance"
      then Some (Raw.update_balance (λ b, fl (b - b)%Q) i d) else None
  | Raw.ProfileUpdate (Raw.balance_plus (Raw.other _ _ text)) i =>
      if String.eqb text "balance"
      then Some (Raw.update_balance (λ b, fl (b + b)%Q) i d) else None
  | _ => None
  end.

(** * Proofs *)

(** ** Running the storage layer *)

Lemma bind_run {A B} (m : Async A) (k : A → Async B) w :
  (m ≫= k) w = match m w with
               | (Resolved a, w') => k a w'
               | (Rejected e, w') => (Rejected e, w')
               end.
Proof. reflexivity. Qed.

Lemma query_run fault s w :
  query fault s None w =
  (settle (fault s) tt,
   mkWorld (applied fault s (db w)) (pending w) (next_transaction w)).
Proof.
  unfold query, applied, settle. destruct (fault s); [by destruct w | done].
Qed.

(** [transfer] issues both updates outside any transaction, the one it was
    given included. *)
Lemma transfer_run fault from to amount tx w :
  let w0 := match tx with
            | Some _ => w
            | None => (sequelize_transaction_begin w).2
            end in
  let t := match tx with Some t => t | None => next_transaction w end in
  let debit := ProfileUpdate (balance_minus amount) from in
  let credit := ProfileUpdate (balance_plus amount) to in
  transfer fault from to amount tx w =
  (settle (fault debit || fault credit) t,
   mkWorld (applied fault credit (applied fault debit (db w0)))
           (pending w0) (next_transaction w0)).
Proof.
  unfold transfer. rewrite bind_run.
  destruct tx as [t|]; cbn -[applied];
    unfold Profile_update; cbn -[applied];
    rewrite bind_run; cbn -[applied]; rewrite !query_run; cbn -[applied].
  all: destruct (fault (ProfileUpdate (balance_minus amount) from));
    destruct (fault (ProfileUpdate (balance_plus amount) to)); reflexivity.
Qed.

Lemma Job_findOne_run jobId profileId w j c :
  Jobs (db w) !! jobId = Some j →
  Contracts (db w) !! ContractId j = Some c →
  ClientId c = profileId →
  Job_findOne jobId profileId w =
  (Resolved (Some (mkJobRow jobId j
      (mkContractRow c (Profile_row (db w) (ClientId c))
                       (Profile_row (db w) (ContractorId c))))), w).
Proof.
  intros Hj Hc Hp. unfold Job_findOne. rewrite Hj. cbn. rewrite Hc. cbn.
  by rewrite decide_True.
Qed.

(** The pay handler on a job that is found and not paid, with both
    profiles in the table: the three statements are issued outside the
    transaction, which is committed or rolled back empty. *)
Lemma payJob_run fault now jobId profileId w j c pc pk :
  Jobs (db w) !! jobId = Some j →
  Contracts (db w) !! ContractId j = Some c →
  ClientId c = profileId →
  Profiles (db w) !! ClientId c = Some pc →
  Profiles (db w) !! ContractorId c = Some pk →
  paid j ≠ Some true →
  let debit := ProfileUpdate (balance_minus (price j)) (ClientId c) in
  let credit := ProfileUpdate (balance_plus (price j)) (ContractorId c) in
  let mark := JobUpdate true now jobId in
  payJob fault now jobId profileId w =
  (Resolved (if fault debit || fault credit || fault mark
             then InternalError else Ok),
   mkWorld (applied fault mark (applied fault credit
              (applied fault debit (db w))))
           (delete (next_transaction w) (pending w))
           (S (next_transaction w))).
Proof.
  intros Hj Hc Hp Hpc Hpk Hpaid debit credit mark.
  unfold payJob. rewrite bind_run, (Job_findOne_run _ _ _ j c) by done.
  cbn. unfold Profile_row. rewrite Hpc, Hpk.
  assert (Hjp : job_paid j = false).
  { unfold job_paid. destruct (paid j) as [[]|]; done. }
  rewrite Hjp. subst debit credit mark.
  run_async.
  destruct (fault (ProfileUpdate (balance_minus (price j)) (ClientId c))),
    (fault (ProfileUpdate (balance_plus (price j)) (ContractorId c))),
    (fault (JobUpdate true now jobId)); cbn;
    rewrite ?lookup_insert_eq, ?delete_insert_eq; reflexivity.
Qed.

(** A statement bound to a transaction through its options is undone when
    the callback rejects: that is what the storage layer offers to a caller
    who names the transaction in the options. *)
Lemma bound_statements_roll_back fault s1 s2 w :
  fault s1 || fault s2 = true →
  ∃ w',
    try_catch (sequelize_transaction (λ t,
      Promise_all [query fault s1 (Some t); query fault s2 (Some t)])) w
    = (Resolved (Rejected DatabaseError), w') ∧ db w' = db w.
Proof.
  intros Hf. run_async.
  destruct (fault s1), (fault s2); try discriminate; run_async;
    rewrite ?lookup_insert_eq; run_async; eauto.
Qed.

(** ** The tables after the statements of a payment *)

Section Tables.

Variables (d : DB) (from to : Z) (amount : Q).

Let debit := ProfileUpdate (balance_minus amount) from.
Let credit := ProfileUpdate (balance_plus amount) to.

Lemma moved_from pf :
  Profiles d !! from = Some pf → from ≠ to →
  Profiles (exec credit (exec debit d)) !! from
  = Some (mkProfile (balance pf - amount) (type pf)).
Proof.
  intros Hf Hne. cbn. rewrite lookup_alter_ne, lookup_alter_eq, Hf by done.
  reflexivity.
Qed.

Lemma moved_to pt :
  Profiles d !! to = Some pt → from ≠ to →
  Profiles (exec credit (exec debit d)) !! to
  = Some (mkProfile (balance pt + amount) (type pt)).
Proof.
  intros Ht Hne. cbn. rewrite lookup_alter_eq, lookup_alter_ne, Ht by done.
  reflexivity.
Qed.


(** The two updates of a transfer between distinct profiles can be
    applied in either order, and the update of a job in any position:
    running the promises of a [Promise.all] one after the other loses
    nothing. *)
Lemma updates_commute v date i :
  from ≠ to →
  exec credit (exec debit d) = exec debit (exec credit d) ∧
  exec (JobUpdate v date i) (exec credit (exec debit d))
  = exec credit (exec debit (exec (JobUpdate v date i) d)).
Proof.
  intros Hne. split; [|reflexivity]. cbn. f_equal.
  apply map_eq. intros k. rewrite !lookup_alter.
  repeat case_decide; subst; rewrite ?lookup_alter_ne by done; congruence.
Qed.

Lemma moved_jobs : Jobs (exec credit (exec debit d)) = Jobs d.
Proof. reflexivity. Qed.

Lemma moved_contracts : Contracts (exec credit (exec debit d)) = Contracts d.
Proof. reflexivity. Qed.

End Tables.

Lemma total_insert (m : gmap Z Profile) i p :
  m !! i = None →
  (map_fold (λ _ p acc, balance p + acc) 0 (<[i := p]> m)
   == balance p + map_fold (λ _ p acc, balance p + acc) 0 m)%Q.
Proof.
  intros Hi.
  apply (map_fold_insert Qeq (λ _ p acc, balance p + acc)%Q); [| |done].
  - intros j z x y Hxy. now rewrite Hxy.
  - intros. ring.
Qed.

Lemma total_alter (m : gmap Z Profile) f i p :
  m !! i = Some p →
  (map_fold (λ _ p acc, balance p + acc) 0 (alter f i m)
   == map_fold (λ _ p acc, balance p + acc) 0 m - balance p + balance (f p))%Q.
Proof.
  intros Hi.
  assert (Hm : m = <[i := p]> (delete i m)) by (by rewrite insert_delete_id).
  rewrite Hm at 2.
  assert (Ha : alter f i m = <[i := f p]> (delete i m)).
  { apply map_eq. intros j. destruct (decide (i = j)) as [->|Hne].
    - rewrite lookup_alter_eq, lookup_insert_eq, Hi. done.
    - by rewrite lookup_alter_ne, lookup_insert_ne, lookup_delete_ne. }
  rewrite Ha, !total_insert by apply lookup_delete_eq. ring.
Qed.

(** Debiting one existing profile and crediting another existing one (the
    same one included) leaves the sum of the balances as it was. *)
Lemma moved_total d from to amount :
  is_Some (Profiles d !! from) → is_Some (Profiles d !! to) →
  (total_balance (exec (ProfileUpdate (balance_plus amount) to)
                   (exec (ProfileUpdate (balance_minus amount) from) d))
   == total_balance d)%Q.
Proof.
  intros [pf Hf] Ht. unfold total_balance. cbn.
  assert (is_Some (alter (set_balance (balance_minus amount)) from
                     (Profiles d) !! to)) as [pt' Ht'].
  { rewrite lookup_alter. destruct (decide (from = to)); [subst; rewrite Hf|];
      cbn; eauto. }
  rewrite (total_alter _ _ _ _ Ht'), (total_alter _ _ _ _ Hf). cbn. ring.
Qed.

(** ** The transfer engine *)


(** A transfer that resolves has applied both updates. *)
Lemma transfer_resolved fault from to amount tx w t w' :
  transfer fault from to amount tx w = (Resolved t, w') →
  db w' = exec (ProfileUpdate (balance_plus amount) to)
            (exec (ProfileUpdate (balance_minus amount) from) (db w)).
Proof.
  rewrite transfer_run. unfold settle, applied.
  destruct (fault (ProfileUpdate (balance_minus amount) from));
    destruct (fault (ProfileUpdate (balance_plus amount) to));
    cbn; intros [= <- <-]; destruct tx; reflexivity.
Qed.

(** ** The pay handler *)

(** [job.Contract] is read before [job] is tested: when the lookup finds
    nothing, the handler throws and the test that answers 404 is not
    reached. *)
Lemma payJob_not_found fault now jobId profileId w :
  (Job_findOne jobId profileId w).1 = Resolved None →
  payJob fault now jobId profileId w = (Rejected TypeError, w).
Proof.
  unfold payJob, Job_findOne. cbn. rewrite bind_run. cbn.
  intros [= ->]. reflexivity.
Qed.

(** On a paid job the handler sends 400 without the message, then
    throws. *)
Lemma payJob_already_paid fault now jobId profileId w j c :
  Jobs (db w) !! jobId = Some j →
  Contracts (db w) !! ContractId j = Some c →
  ClientId c = profileId →
  paid j = Some true →
  payJob fault now jobId profileId w
  = (Rejected (HeadersSent (Sent 400 None)), w).
Proof.
  intros Hj Hc Hp Hpaid.
  unfold payJob. rewrite bind_run, (Job_findOne_run _ _ _ j c) by done.
  cbn. unfold job_paid. rewrite Hpaid. reflexivity.
Qed.



Lemma payJob_calls_already_paid fault nows jobId profileId w j c :
  Jobs (db w) !! jobId = Some j →
  Contracts (db w) !! ContractId j = Some c →
  ClientId c = profileId →
  paid j = Some true →
  payJob_calls fault nows jobId profileId w
  = (map (λ _, Rejected (HeadersSent (Sent 400 None))) nows, w).
Proof.
  intros Hj Hc Hp Hpaid. induction nows as [|now nows IH]; [done|].
  cbn [payJob_calls map].
  rewrite (payJob_already_paid fault now jobId profileId w j c) by done.
  by rewrite IH.
Qed.

(** The calls of the pay handler on a job that is not paid: the first
    one succeeds, every later one sends 400 without a message and throws;
    the store after all the calls is the store after the first one, where
    the price has moved once. *)
Lemma payJob_calls_after_payment now nows jobId profileId w j c pc pk :
  Jobs (db w) !! jobId = Some j →
  Contracts (db w) !! ContractId j = Some c →
  ClientId c = profileId →
  Profiles (db w) !! ClientId c = Some pc →
  Profiles (db w) !! ContractorId c = Some pk →
  ClientId c ≠ ContractorId c →
  paid j ≠ Some true →
  ∃ w1,
    payJob no_fault now jobId profileId w = (Resolved Ok, w1) ∧
    payJob_calls no_fault (now :: nows) jobId profileId w
      = (Resolved Ok
           :: map (λ _, Rejected (HeadersSent (Sent 400 None))) nows, w1) ∧
    balance <$> Profiles (db w1) !! ClientId c
      = Some (balance pc - price j)%Q ∧
    balance <$> Profiles (db w1) !! ContractorId c
      = Some (balance pk + price j)%Q.
Proof.
  intros Hj Hc Hp Hpc Hpk Hne Hpaid.
  pose proof (payJob_run no_fault now jobId profileId w j c pc pk
                Hj Hc Hp Hpc Hpk Hpaid) as Hrun.
  cbn zeta in Hrun. cbn [no_fault orb applied] in Hrun.
  eexists. split; [exact Hrun|].
  cbn [payJob_calls]. rewrite Hrun.
  rewrite (payJob_calls_already_paid no_fault nows jobId profileId _
             (set_paid true now j) c).
  - split; [reflexivity|]. cbn [db].
    change (Profiles (exec (JobUpdate true now jobId) ?d)) with (Profiles d).
    by rewrite (moved_from _ _ _ _ pc), (moved_to _ _ _ _ pk).
  - cbn. by rewrite lookup_alter_eq, Hj.
  - exact Hc.
  - exact Hp.
  - reflexivity.
Qed.

(** C8, on the code.  Three calls of the pay handler on the unpaid job of
    the example (price 200, client at 500, contractor at 0): the first one
    answers 200 and moves the price once; each later one sends 400 with no
    message (the text "Job already paid" is never sent) and then throws,
    where the claim has it answer that the job is already paid; the store
    stays as the first call left it. *)
Theorem payJob_second_call_throws :
  ∃ w1,
    payJob_calls no_fault [99; 100; 101] 1 1 (store 500 0 200)
      = ([Resolved Ok; Rejected (HeadersSent (Sent 400 None));
          Rejected (HeadersSent (Sent 400 None))], w1) ∧
    Rejected (HeadersSent (Sent 400 None)) ≠ Resolved AlreadyPaid ∧
    balance <$> Profiles (db w1) !! 1 = Some 300%Q ∧
    balance <$> Profiles (db w1) !! 2 = Some 200%Q.
Proof.
  destruct (payJob_calls_after_payment 99 [100; 101] 1 1 (store 500 0 200)
              (mkJob 1 200 None None) (mkContract 1 2)
              (mkProfile 500 client) (mkProfile 0 contractor))
    as (w1 & _ & Hcalls & Hc & Hk);
    [reflexivity | reflexivity | reflexivity | reflexivity | reflexivity
    | cbn; lia | discriminate |].
  exists w1. split_and!; [exact Hcalls | discriminate | exact Hc | exact Hk].
Qed.

(** C4, on the code.  For a job that does not exist, and for a job whose
    contract has another client than the caller, the handler throws a
    [TypeError] where the claim has it answer 404; the store is left as it
    was. *)
Theorem payJob_missing_job_throws :
  payJob no_fault 99 7 1 (store 500 0 200)
    = (Rejected TypeError, store 500 0 200) ∧
  payJob no_fault 99 1 2 (store 500 0 200)
    = (Rejected TypeError, store 500 0 200).
Proof. split; apply payJob_not_found; reflexivity. Qed.

(** C2, on the code.  The storage layer refuses the update of the job and
    accepts the two updates of the balances: the handler answers 500, the
    200 have left the client and reached the contractor, and the job is
    still not paid.  Refusing the credit instead leaves the client
    debited, the contractor not credited and the job paid. *)
Theorem payJob_partial_write :
  let job_update_fails s :=
    match s with JobUpdate _ _ _ => true | _ => false end in
  let credit_fails s :=
    match s with ProfileUpdate (balance_plus _) _ => true | _ => false end in
  (∃ w',
     payJob job_update_fails 99 1 1 (store 500 0 200)
       = (Resolved InternalError, w') ∧
     balance <$> Profiles (db w') !! 1 = Some 300%Q ∧
     balance <$> Profiles (db w') !! 2 = Some 200%Q ∧
     paid <$> Jobs (db w') !! 1 = Some None) ∧
  (∃ w',
     payJob credit_fails 99 1 1 (store 500 0 200)
       = (Resolved InternalError, w') ∧
     balance <$> Profiles (db w') !! 1 = Some 300%Q ∧
     balance <$> Profiles (db w') !! 2 = Some 0%Q ∧
     paid <$> Jobs (db w') !! 1 = Some (Some true)).
Proof.
  intros job_update_fails credit_fails. split.
  - exists (payJob job_update_fails 99 1 1 (store 500 0 200)).2.
    split_and!; vm_compute; reflexivity.
  - exists (payJob credit_fails 99 1 1 (store 500 0 200)).2.
    split_and!; vm_compute; reflexivity.
Qed.

(** The guard on the client's balance compares it with [job.value], which
    is [undefined]: the comparison is false whatever the balance.  With a
    price of 200 and a client at 150 the payment goes through and the
    client ends at -50. *)
Lemma payJob_overdraft :
  ∃ w',
    payJob no_fault 99 1 1 (store 150 0 200) = (Resolved Ok, w') ∧
    balance <$> Profiles (db w') !! 1 = Some (-50)%Q ∧
    balance <$> Profiles (db w') !! 2 = Some 200%Q.
Proof.
  exists (payJob no_fault 99 1 1 (store 150 0 200)).2.
  split_and!; vm_compute; reflexivity.
Qed.

(** ** The deposit handler *)

(** [Job.sum] against the sum in the words of the specification: either no
    row satisfies the condition, the aggregate is [null] and the sum is 0,
    or the aggregate is a number equal to the sum. *)
Lemma sum_rows_spec (cond : Job → bool) (rows : gmap Z Job) :
  let s := map_fold (λ _ j acc, if cond j then (price j + acc)%Q else acc)
             0%Q rows in
  (sum_rows price cond rows = Js.null ∧ s = 0%Q ∧
   ∀ i j, rows !! i = Some j → cond j = false)
  ∨ (∃ q, sum_rows price cond rows = Js.num q ∧ (q == s)%Q).
Proof.
  unfold sum_rows.
  induction rows as [|i j rows Hi Hfirst IH] using map_first_key_ind.
  - left. rewrite !map_fold_empty. split_and!; [done..|].
    intros i j. by rewrite lookup_empty.
  - cbn zeta in *. rewrite !map_fold_insert_first_key by done.
    destruct (cond j) eqn:Hc.
    + right. destruct IH as [(-> & -> & _)|(q & -> & Hq)].
      * eexists. split; [reflexivity|]. ring.
      * eexists. split; [reflexivity|]. now rewrite Hq.
    + destruct IH as [(-> & -> & Hall)|(q & -> & Hq)].
      * left. split_and!; [done..|].
        intros i' j'. rewrite lookup_insert. case_decide; [|by apply Hall].
        by intros [= <-].
      * right. eauto.
Qed.

Lemma maxDepositValue_num q :
  maxDepositValue (Js.num q) = Js.num (25 * q / 100).
Proof. reflexivity. Qed.

Lemma maxDepositValue_null :
  maxDepositValue Js.null = Js.num (25 * 0 / 100).
Proof. reflexivity. Qed.

(** The cap is always a number: 25% of the outstanding total. *)
Lemma cap_spec d profileId :
  ∃ cap,
    maxDepositValue (sum_rows price (unpaid_of profileId d) (Jobs d))
      = Js.num cap ∧
    (cap == (25 # 100) * outstanding d profileId)%Q.
Proof.
  unfold outstanding.
  destruct (sum_rows_spec (unpaid_of profileId d) (Jobs d))
    as [(-> & -> & _)|(q & -> & Hq)]; cbn zeta in *.
  - eexists. split; [apply maxDepositValue_null|]. reflexivity.
  - eexists. split; [apply maxDepositValue_num|]. rewrite <- Hq. field.
Qed.

(** The deposit handler once the two first tests are passed. *)
Lemma deposit_run fault userId profileId q w cap :
  userId ≠ profileId → (0 < q)%Q →
  maxDepositValue
    (sum_rows price (unpaid_of profileId (db w)) (Jobs (db w))) = Js.num cap →
  let debit := ProfileUpdate (balance_minus q) profileId in
  let credit := ProfileUpdate (balance_plus q) userId in
  deposit fault userId profileId (Js.num q) w =
  if Qle_bool q cap
  then (Resolved (if fault debit || fault credit then InternalError else Ok),
        mkWorld (applied fault credit (applied fault debit (db w)))
                (<[next_transaction w := []]> (pending w))
                (S (next_transaction w)))
  else (Resolved DepositExceedsCap, w).
Proof.
  intros Hne Hq Hcap debit credit. unfold deposit.
  rewrite bool_decide_false by done.
  assert (Hvalid : negb (Js.truthy (Js.num q)) || Js.le (Js.num q) (Js.num 0)
                   = false).
  { cbn. rewrite negb_involutive. apply orb_false_intro.
    - destruct (Qeq_bool q 0) eqn:E; [|done].
      apply Qeq_bool_iff in E. rewrite E in Hq. by apply Qlt_irrefl in Hq.
    - destruct (Qle_bool q 0) eqn:E; [|done].
      apply Qle_bool_iff in E. by apply Qlt_not_le in Hq. }
  rewrite Hvalid. rewrite bind_run. unfold Job_sum at 1. cbn beta iota.
  rewrite Hcap. unfold Js.gt, Js.lt. cbn [Js.to_number].
  destruct (Qle_bool q cap); cbn [negb]; [|reflexivity].
  unfold try_catch. rewrite bind_run, transfer_run. cbn -[applied].
  fold debit credit.
  destruct (fault debit), (fault credit); reflexivity.
Qed.

Lemma deposit_invalid fault userId profileId q w :
  userId ≠ profileId → ¬ (0 < q)%Q →
  deposit fault userId profileId (Js.num q) w = (Resolved InvalidAmount, w).
Proof.
  intros Hne Hq. unfold deposit. rewrite bool_decide_false by done.
  assert (Hinv : negb (Js.truthy (Js.num q)) || Js.le (Js.num q) (Js.num 0)
                 = true).
  { cbn. apply orb_true_iff. right. apply Qle_bool_iff.
    by apply Qnot_lt_le. }
  by rewrite Hinv.
Qed.

Lemma deposit_self fault profileId amount w :
  deposit fault profileId profileId amount w
  = (Resolved SelfDepositForbidden, w).
Proof. unfold deposit. by rewrite bool_decide_true. Qed.

(** C10.  A payer none of whose jobs is unpaid gets [null] from [Job.sum]
    and has an outstanding total of 0; and whenever the outstanding total
    is zero, the cap is zero and every deposit of a positive amount to
    another profile is refused for exceeding the cap, the store being left
    as it was. *)
Theorem deposit_without_unpaid_jobs fault profileId w :
  ((∀ i j, Jobs (db w) !! i = Some j →
           unpaid_of profileId (db w) j = false) →
   sum_rows price (unpaid_of profileId (db w)) (Jobs (db w)) = Js.null ∧
   outstanding (db w) profileId = 0%Q) ∧
  ((outstanding (db w) profileId == 0)%Q →
   ∃ cap,
     maxDepositValue
       (sum_rows price (unpaid_of profileId (db w)) (Jobs (db w)))
       = Js.num cap ∧
     (cap == 0)%Q ∧
     ∀ userId q, userId ≠ profileId → (0 < q)%Q →
       deposit fault userId profileId (Js.num q) w
       = (Resolved DepositExceedsCap, w)).
Proof.
  split.
  - intros Hnone. unfold outstanding.
    destruct (sum_rows_spec (unpaid_of profileId (db w)) (Jobs (db w)))
      as [(Hnull & Hzero & _)|(q & Hq & _)]; [done|].
    exfalso. revert Hq Hnone. unfold sum_rows.
    generalize (unpaid_of profileId (db w)). intros cond.
    induction (Jobs (db w)) as [|i j rows Hi Hfirst IH]
      using map_first_key_ind.
    + by rewrite map_fold_empty.
    + rewrite map_fold_insert_first_key by done. intros Hq Hnone.
      rewrite (Hnone i j) in Hq by apply lookup_insert_eq.
      apply IH; [done|]. intros i' j' Hi'. apply (Hnone i').
      rewrite lookup_insert_ne; [done|]. intros ->. congruence.
  - intros Hzero.
    destruct (cap_spec (db w) profileId) as (cap & Hcap & Hval).
    rewrite Hzero in Hval. exists cap. split_and!; [done| by rewrite Hval |].
    intros userId q Hne Hq.
    rewrite (deposit_run fault userId profileId q w cap) by done.
    assert (Hle : Qle_bool q cap = false).
    { apply not_true_iff_false. intros H. apply Qle_bool_iff in H.
      rewrite Hval in H. apply (Qlt_not_le _ _ Hq).
      eapply Qle_trans; [exact H|]. discriminate. }
    by rewrite Hle.
Qed.

Lemma deposit_without_unpaid_jobs_witness :
  let w := mkWorld (mkDB (<[1 := mkProfile 500 client]> ∅) ∅ ∅) ∅ 0%nat in
  sum_rows price (unpaid_of 1 (db w)) (Jobs (db w)) = Js.null ∧
  deposit no_fault 2 1 (Js.num 1) w = (Resolved DepositExceedsCap, w).
Proof.
  intros w.
  destruct (deposit_without_unpaid_jobs no_fault 1 w) as [Hnull Hzero].
  split.
  - apply Hnull. intros i j. vm_compute. discriminate.
  - destruct Hzero as (cap & _ & _ & Hdep); [vm_compute; reflexivity|].
    apply Hdep; [lia | vm_compute; reflexivity].
Defined.

(** ** Balances below zero *)




(** * Further properties of the code *)

(** ** [transfer] on profiles that are the same or are missing *)





(** ** [transfer] and the transaction it returns *)

(** X3.  A transfer that resolves has put no statement on any transaction:
    the transaction it returns holds what it held before (nothing when
    [transfer] opened it), the other ones are untouched, and rolling the
    returned transaction back leaves both updates in the tables. *)
Theorem transfer_writes_outside_transaction fault from to amount tx w t w' :
  transfer fault from to amount tx w = (Resolved t, w') →
  (∀ t', t' ≠ t → pending w' !! t' = pending w !! t') ∧
  pending w' !! t
    = match tx with Some _ => pending w !! t | None => Some [] end ∧
  db (rollback t w').2 = db w' ∧
  db w' = exec (ProfileUpdate (balance_plus amount) to)
            (exec (ProfileUpdate (balance_minus amount) from) (db w)).
Proof.
  intros Hrun. pose proof (transfer_resolved _ _ _ _ _ _ _ _ Hrun) as Hdb.
  rewrite transfer_run in Hrun. unfold settle in Hrun.
  destruct (_ || _); [discriminate|]. injection Hrun as <- <-.
  destruct tx as [t0|]; cbn -[exec].
  - split_and!; done.
  - split_and!; [|by rewrite lookup_insert_eq|done|done].
    intros t' Ht'. by rewrite lookup_insert_ne.
Qed.

Lemma transfer_writes_outside_transaction_witness :
  let w := store 500 0 200 in
  let w' := (transfer no_fault 1 2 30 None w).2 in
  pending w' !! 0%nat = Some [] ∧
  db (rollback 0%nat w').2 = db w' ∧
  db w' = exec (ProfileUpdate (balance_plus 30) 2)
            (exec (ProfileUpdate (balance_minus 30) 1) (db w)).
Proof.
  intros w w'.
  destruct (transfer_writes_outside_transaction no_fault 1 2 30 None w
              0%nat w') as (_ & Hp & Hr & Hd); [reflexivity|].
  done.
Defined.



(** ** The pay handler in every case *)

(** A job that is found and not paid, whose contract names a client that
    the table of profiles lacks: [client.balance] throws. *)
Lemma payJob_no_client fault now jobId profileId w j c :
  Jobs (db w) !! jobId = Some j →
  Contracts (db w) !! ContractId j = Some c →
  ClientId c = profileId →
  paid j ≠ Some true →
  Profiles (db w) !! ClientId c = None →
  payJob fault now jobId profileId w = (Rejected TypeError, w).
Proof.
  intros Hj Hc Hp Hpaid Hpc.
  unfold payJob. rewrite bind_run, (Job_findOne_run _ _ _ j c) by done.
  cbn. unfold Profile_row. rewrite Hpc.
  assert (Hjp : job_paid j = false).
  { unfold job_paid. destruct (paid j) as [[]|]; done. }
  by rewrite Hjp.
Qed.

(** The same with the client in the table and the contractor missing:
    [contractor.id] throws inside the callback of the transaction, which
    is rolled back, and the handler answers 500. *)
Lemma payJob_no_contractor fault now jobId profileId w j c pc :
  Jobs (db w) !! jobId = Some j →
  Contracts (db w) !! ContractId j = Some c →
  ClientId c = profileId →
  paid j ≠ Some true →
  Profiles (db w) !! ClientId c = Some pc →
  Profiles (db w) !! ContractorId c = None →
  payJob fault now jobId profileId w =
  (Resolved InternalError,
   mkWorld (db w) (delete (next_transaction w) (pending w))
           (S (next_transaction w))).
Proof.
  intros Hj Hc Hp Hpaid Hpc Hpk.
  unfold payJob. rewrite bind_run, (Job_findOne_run _ _ _ j c) by done.
  cbn. unfold Profile_row. rewrite Hpc, Hpk.
  assert (Hjp : job_paid j = false).
  { unfold job_paid. destruct (paid j) as [[]|]; done. }
  rewrite Hjp. run_async. by rewrite delete_insert_eq.
Qed.

(** The four ways the pay handler can go. *)
Lemma payJob_cases fault now jobId profileId w :
  payJob fault now jobId profileId w = (Rejected TypeError, w)
  ∨ payJob fault now jobId profileId w
    = (Rejected (HeadersSent (Sent 400 None)), w)
  ∨ (∃ w', payJob fault now jobId profileId w = (Resolved InternalError, w')
           ∧ db w' = db w)
  ∨ (∃ j c pc pk,
       Jobs (db w) !! jobId = Some j ∧
       Contracts (db w) !! ContractId j = Some c ∧
       ClientId c = profileId ∧
       Profiles (db w) !! ClientId c = Some pc ∧
       Profiles (db w) !! ContractorId c = Some pk ∧
       paid j ≠ Some true).
Proof.
  destruct (Jobs (db w) !! jobId) as [j|] eqn:Hj.
  2:{ left. apply payJob_not_found. unfold Job_findOne. by rewrite Hj. }
  destruct (Contracts (db w) !! ContractId j) as [c|] eqn:Hc.
  2:{ left. apply payJob_not_found. unfold Job_findOne. rewrite Hj. cbn.
      by rewrite Hc. }
  destruct (decide (ClientId c = profileId)) as [Hp|Hp].
  2:{ left. apply payJob_not_found. unfold Job_findOne. rewrite Hj. cbn.
      rewrite Hc. cbn. by rewrite decide_False. }
  destruct (decide (paid j = Some true)) as [Hpaid|Hpaid].
  { right. left. by apply (payJob_already_paid _ _ _ _ _ j c). }
  destruct (Profiles (db w) !! ClientId c) as [pc|] eqn:Hpc.
  2:{ left. by apply (payJob_no_client _ _ _ _ _ j c). }
  destruct (Profiles (db w) !! ContractorId c) as [pk|] eqn:Hpk.
  2:{ right. right. left. eexists. split;
        [by apply (payJob_no_contractor _ _ _ _ _ j c pc)|done]. }
  right. right. right. by exists j, c, pc, pk.
Qed.

(** X6.  A job that is found and not paid, whose contract names a profile
    that the table lacks: with the client missing the handler throws a
    [TypeError] and the world is unchanged; with the client present and the
    contractor missing it answers 500 and the tables are unchanged. *)
Theorem payJob_dangling_profile fault now jobId profileId w j c :
  Jobs (db w) !! jobId = Some j →
  Contracts (db w) !! ContractId j = Some c →
  ClientId c = profileId →
  paid j ≠ Some true →
  (Profiles (db w) !! ClientId c = None →
   payJob fault now jobId profileId w = (Rejected TypeError, w)) ∧
  (is_Some (Profiles (db w) !! ClientId c) →
   Profiles (db w) !! ContractorId c = None →
   ∃ w', payJob fault now jobId profileId w = (Resolved InternalError, w')
         ∧ db w' = db w).
Proof.
  intros Hj Hc Hp Hpaid. split.
  - intros Hpc. by apply (payJob_no_client _ _ _ _ _ j c).
  - intros [pc Hpc] Hpk. eexists. split;
      [by apply (payJob_no_contractor _ _ _ _ _ j c pc)|done].
Qed.

Lemma payJob_dangling_profile_witness :
  let no_client :=
    mkWorld (mkDB ∅ (<[1 := mkContract 1 2]> ∅)
                  (<[1 := mkJob 1 200 None None]> ∅)) ∅ 0%nat in
  let no_contractor :=
    mkWorld (mkDB (<[1 := mkProfile 500 client]> ∅)
                  (<[1 := mkContract 1 2]> ∅)
                  (<[1 := mkJob 1 200 None None]> ∅)) ∅ 0%nat in
  payJob no_fault 99 1 1 no_client = (Rejected TypeError, no_client) ∧
  ∃ w', payJob no_fault 99 1 1 no_contractor = (Resolved InternalError, w')
        ∧ db w' = db no_contractor.
Proof.
  intros no_client no_contractor. split.
  - apply (payJob_dangling_profile no_fault 99 1 1 no_client
             (mkJob 1 200 None None) (mkContract 1 2));
      [reflexivity | reflexivity | reflexivity | discriminate | reflexivity].
  - apply (payJob_dangling_profile no_fault 99 1 1 no_contractor
             (mkJob 1 200 None None) (mkContract 1 2));
      [reflexivity | reflexivity | reflexivity | discriminate
      | vm_compute; eauto | reflexivity].
Defined.

(** The tables after the statements of a payment that the storage layer
    has accepted or refused, one by one. *)
Lemma applied_frame fault now jobId j c d :
  let debit := ProfileUpdate (balance_minus (price j)) (ClientId c) in
  let credit := ProfileUpdate (balance_plus (price j)) (ContractorId c) in
  let mark := JobUpdate true now jobId in
  let d' := applied fault mark (applied fault credit (applied fault debit d)) in
  Jobs d !! jobId = Some j →
  Contracts d' = Contracts d ∧
  (∀ i, i ≠ jobId → Jobs d' !! i = Jobs d !! i) ∧
  (∃ j', Jobs d' !! jobId = Some j' ∧
         price j' = price j ∧ ContractId j' = ContractId j) ∧
  (∀ i, i ≠ ClientId c → i ≠ ContractorId c →
        Profiles d' !! i = Profiles d !! i) ∧
  (∀ i, is_Some (Profiles d' !! i) ↔ is_Some (Profiles d !! i)).
Proof.
  intros debit credit mark d' Hj. subst d' debit credit mark.
  unfold applied.
  destruct (fault (ProfileUpdate _ (ClientId c))),
    (fault (ProfileUpdate _ (ContractorId c))), (fault (JobUpdate _ _ _));
    cbn; (split_and!; [done| | | |]);
    try (intros i ?; by rewrite ?lookup_alter_ne);
    try (intros i ??; by rewrite ?lookup_alter_ne);
    try (rewrite ?lookup_alter_eq, Hj; cbn; eauto; fail);
    intros i; rewrite ?lookup_alter; repeat case_decide; subst;
      rewrite ?fmap_is_Some; try done;
      match goal with H : ClientId c = _ |- _ => by rewrite H end.
Qed.

(** X7.  Whatever its outcome and whatever the storage layer does, the pay
    handler changes no contract, no job other than the one named, neither
    the price nor the contract of that job, no profile other than the
    client and the contractor of its contract, and it neither adds nor
    removes a profile. *)
Theorem payJob_frame fault now jobId profileId w :
  let w' := (payJob fault now jobId profileId w).2 in
  Contracts (db w') = Contracts (db w) ∧
  (∀ i, i ≠ jobId → Jobs (db w') !! i = Jobs (db w) !! i) ∧
  (∀ j, Jobs (db w) !! jobId = Some j →
        ∃ j', Jobs (db w') !! jobId = Some j' ∧
              price j' = price j ∧ ContractId j' = ContractId j) ∧
  (∀ i, (∀ j c, Jobs (db w) !! jobId = Some j →
                Contracts (db w) !! ContractId j = Some c →
                i ≠ ClientId c ∧ i ≠ ContractorId c) →
        Profiles (db w') !! i = Profiles (db w) !! i) ∧
  (∀ i, is_Some (Profiles (db w') !! i) ↔ is_Some (Profiles (db w) !! i)).
Proof.
  intros w'. subst w'.
  destruct (payJob_cases fault now jobId profileId w)
    as [H|[H|[(w1 & H & Hdb)
         |(j & c & pc & pk & Hj & Hc & Hp & Hpc & Hpk & Hpaid)]]].
  1,2: rewrite H; cbn; split_and!; eauto.
  - rewrite H. cbn. rewrite Hdb. split_and!; eauto.
  - rewrite (payJob_run fault now jobId profileId w j c pc pk) by done.
    cbn [snd db].
    destruct (applied_frame fault now jobId j c (db w) Hj)
      as (HC & HJ & HJ' & HP & HD).
    split_and!; try done.
    + intros j0 Hj0. rewrite Hj in Hj0. by injection Hj0 as <-.
    + intros i Hi. destruct (Hi j c Hj Hc). by apply HP.
Qed.

(** X8.  The pay handler never answers 404 and never answers that the
    balance is insufficient; when no job with the given id has a contract
    whose client is the caller, it throws a [TypeError] and leaves the
    world as it was. *)
Theorem payJob_never_answers_404 fault now jobId profileId w :
  (payJob fault now jobId profileId w).1 ≠ Resolved JobNotFound ∧
  (payJob fault now jobId profileId w).1 ≠ Resolved InsufficientBalance ∧
  ((∀ j c, Jobs (db w) !! jobId = Some j →
           Contracts (db w) !! ContractId j = Some c →
           ClientId c ≠ profileId) →
   payJob fault now jobId profileId w = (Rejected TypeError, w)).
Proof.
  split_and!.
  1,2: destruct (payJob_cases fault now jobId profileId w)
    as [H|[H|[(w1 & H & Hdb)
         |(j & c & pc & pk & Hj & Hc & Hp & Hpc & Hpk & Hpaid)]]];
    try (rewrite H; discriminate);
    rewrite (payJob_run fault now jobId profileId w j c pc pk) by done;
    cbn; destruct (_ || _); discriminate.
  intros Hno. apply payJob_not_found. unfold Job_findOne. cbn.
  destruct (Jobs (db w) !! jobId) as [j|] eqn:Hj; [|done]. cbn.
  destruct (Contracts (db w) !! ContractId j) as [c|] eqn:Hc; [|done]. cbn.
  rewrite decide_False; [done|]. by apply (Hno j c).
Qed.

(** X9.  The pay handler changes the tables only when the job exists, is
    not paid, and the caller is the client of its contract. *)
Theorem payJob_writes_for_the_client_only fault now jobId profileId w :
  db (payJob fault now jobId profileId w).2 ≠ db w →
  ∃ j c, Jobs (db w) !! jobId = Some j ∧
         Contracts (db w) !! ContractId j = Some c ∧
         ClientId c = profileId ∧ paid j ≠ Some true.
Proof.
  destruct (payJob_cases fault now jobId profileId w)
    as [H|[H|[(w1 & H & Hdb)
         |(j & c & pc & pk & Hj & Hc & Hp & Hpc & Hpk & Hpaid)]]].
  1,2: rewrite H; cbn; done.
  - rewrite H. cbn. done.
  - intros _. by exists j, c.
Qed.

Lemma payJob_writes_for_the_client_only_witness :
  ∃ j c, Jobs (db (store 500 0 200)) !! 1 = Some j ∧
         Contracts (db (store 500 0 200)) !! ContractId j = Some c ∧
         ClientId c = 1 ∧ paid j ≠ Some true.
Proof.
  apply (payJob_writes_for_the_client_only no_fault 99 1 1 (store 500 0 200)).
  vm_compute. discriminate.
Defined.

Lemma payJob_frame_witness :
  let w' := (payJob no_fault 99 1 1 (store 500 0 200)).2 in
  Contracts (db w') = Contracts (db (store 500 0 200)) ∧
  (∃ j', Jobs (db w') !! 1 = Some j' ∧ price j' = 200%Q ∧ ContractId j' = 1) ∧
  Profiles (db w') !! 3 = Profiles (db (store 500 0 200)) !! 3.
Proof.
  intros w'.
  destruct (payJob_frame no_fault 99 1 1 (store 500 0 200))
    as (HC & _ & HJ & HP & _).
  split_and!; [exact HC | |].
  - apply (HJ (mkJob 1 200 None None)). reflexivity.
  - apply HP. intros j c Hj Hc. vm_compute in Hj. injection Hj as <-.
    vm_compute in Hc. injection Hc as <-. split; discriminate.
Defined.

Lemma payJob_never_answers_404_witness :
  (payJob no_fault 99 7 1 (store 500 0 200)).1 ≠ Resolved JobNotFound ∧
  payJob no_fault 99 1 2 (store 500 0 200)
    = (Rejected TypeError, store 500 0 200).
Proof.
  split.
  - apply (payJob_never_answers_404 no_fault 99 7 1 (store 500 0 200)).
  - apply (payJob_never_answers_404 no_fault 99 1 2 (store 500 0 200)).
    intros j c Hj Hc. vm_compute in Hj. injection Hj as <-.
    vm_compute in Hc. injection Hc as <-. discriminate.
Defined.

(** ** A payment whose balance updates are refused *)

(** X10.  When the storage layer refuses both balance updates of a payment
    and accepts the update of the job, the handler answers 500, no balance
    has changed, and the job is paid for good: every later call, whatever
    the storage layer does, takes the branch of a paid job (it sends 400
    without a message and throws) and changes nothing. *)
Theorem payJob_lost_payment fault now jobId profileId w j c pc pk :
  Jobs (db w) !! jobId = Some j →
  Contracts (db w) !! ContractId j = Some c →
  ClientId c = profileId →
  Profiles (db w) !! ClientId c = Some pc →
  Profiles (db w) !! ContractorId c = Some pk →
  paid j ≠ Some true →
  fault (ProfileUpdate (balance_minus (price j)) (ClientId c)) = true →
  fault (ProfileUpdate (balance_plus (price j)) (ContractorId c)) = true →
  fault (JobUpdate true now jobId) = false →
  ∃ w1,
    payJob fault now jobId profileId w = (Resolved InternalError, w1) ∧
    Profiles (db w1) = Profiles (db w) ∧
    ∀ fault' now',
      payJob fault' now' jobId profileId w1
      = (Rejected (HeadersSent (Sent 400 None)), w1).
Proof.
  intros Hj Hc Hp Hpc Hpk Hpaid Hd Hcr Hm.
  rewrite (payJob_run fault now jobId profileId w j c pc pk) by done.
  cbn zeta. unfold applied. rewrite Hd, Hcr, Hm. cbn [orb].
  eexists. split; [reflexivity|]. split; [reflexivity|].
  intros fault' now'.
  apply (payJob_already_paid _ _ _ _ _ (set_paid true now j) c); try done.
  cbn. by rewrite lookup_alter_eq, Hj.
Qed.

Lemma payJob_lost_payment_witness :
  let balances_refused s :=
    match s with ProfileUpdate _ _ => true | _ => false end in
  ∃ w1,
    payJob balances_refused 99 1 1 (store 500 0 200)
      = (Resolved InternalError, w1) ∧
    Profiles (db w1) = Profiles (db (store 500 0 200)) ∧
    ∀ fault' now',
      payJob fault' now' 1 1 w1
      = (Rejected (HeadersSent (Sent 400 None)), w1).
Proof.
  intros balances_refused.
  apply (payJob_lost_payment balances_refused 99 1 1 (store 500 0 200)
           (mkJob 1 200 None None) (mkContract 1 2)
           (mkProfile 500 client) (mkProfile 0 contractor));
    [reflexivity | reflexivity | reflexivity | reflexivity | reflexivity
    | discriminate | reflexivity | reflexivity | reflexivity].
Defined.

(** ** The deposit handler at its edges *)

(** X11.  A deposit to another profile whose amount is missing, [null],
    [NaN], zero or negative is refused as an invalid amount, and the world
    is unchanged. *)
Theorem deposit_invalid_amount fault userId profileId amount w :
  userId ≠ profileId →
  (∀ q, amount = Js.num q → (q <= 0)%Q) →
  deposit fault userId profileId amount w = (Resolved InvalidAmount, w).
Proof.
  intros Hne Hq. unfold deposit. rewrite bool_decide_false by done.
  assert (Hinv : negb (Js.truthy amount) || Js.le amount (Js.num 0) = true).
  { destruct amount as [| | |q]; try reflexivity.
    cbn. apply orb_true_iff. right. apply Qle_bool_iff. by apply Hq. }
  by rewrite Hinv.
Qed.

Lemma deposit_invalid_amount_witness :
  deposit no_fault 2 1 Js.undefined (store 500 0 200)
    = (Resolved InvalidAmount, store 500 0 200) ∧
  deposit no_fault 2 1 (Js.num (-5)) (store 500 0 200)
    = (Resolved InvalidAmount, store 500 0 200).
Proof.
  split.
  - apply (deposit_invalid_amount no_fault 2 1 Js.undefined); [lia|].
    intros q. discriminate.
  - apply (deposit_invalid_amount no_fault 2 1 (Js.num (-5))); [lia|].
    intros q [= <-]. vm_compute. discriminate.
Defined.

(** The tables and the open transactions after a deposit that has passed
    the three tests. *)
Lemma deposit_accepted fault userId profileId q w cap :
  userId ≠ profileId → (0 < q)%Q →
  maxDepositValue
    (sum_rows price (unpaid_of profileId (db w)) (Jobs (db w))) = Js.num cap →
  (q <= cap)%Q →
  let debit := ProfileUpdate (balance_minus q) profileId in
  let credit := ProfileUpdate (balance_plus q) userId in
  deposit fault userId profileId (Js.num q) w =
  (Resolved (if fault debit || fault credit then InternalError else Ok),
   mkWorld (applied fault credit (applied fault debit (db w)))
           (<[next_transaction w := []]> (pending w))
           (S (next_transaction w))).
Proof.
  intros Hne Hq Hcap Hle. cbn zeta.
  rewrite (deposit_run fault userId profileId q w cap) by done.
  apply Qle_bool_iff in Hle. by rewrite Hle.
Qed.



(** The two ways the deposit handler can go: a refusal that leaves the
    world as it was, or the transfer of a positive number within the
    cap. *)
Lemma deposit_cases fault userId profileId amount w :
  (∃ r, deposit fault userId profileId amount w = (Resolved r, w) ∧
        r ≠ Ok ∧ r ≠ InternalError)
  ∨ (∃ q cap,
       amount = Js.num q ∧ userId ≠ profileId ∧ (0 < q)%Q ∧
       maxDepositValue
         (sum_rows price (unpaid_of profileId (db w)) (Jobs (db w)))
         = Js.num cap ∧
       (q <= cap)%Q).
Proof.
  destruct (decide (userId = profileId)) as [->|Hne].
  { left. exists SelfDepositForbidden. by rewrite deposit_self. }
  destruct (cap_spec (db w) profileId) as (cap & Hcap & _).
  destruct amount as [| | |q].
  1-3: left; exists InvalidAmount; split; [|done];
    unfold deposit; by rewrite bool_decide_false.
  destruct (Qlt_le_dec 0 q) as [Hq|Hq].
  2:{ left. exists InvalidAmount. split; [|done].
      apply deposit_invalid; [done|]. by apply Qle_not_lt. }
  destruct (Qle_bool q cap) eqn:Hle.
  - right. exists q, cap. apply Qle_bool_iff in Hle. done.
  - left. exists DepositExceedsCap. split; [|done].
    by rewrite (deposit_run fault userId profileId q w cap), Hle.
Qed.

(** X14.  A deposit that reaches the transfer (it answers 200 or 500)
    leaves open the transaction that [transfer] opened for it, empty, and
    touches no other transaction; a deposit that is refused leaves the
    world as it was. *)
Theorem deposit_leaves_a_transaction_open fault userId profileId amount w :
  let o := (deposit fault userId profileId amount w).1 in
  let w' := (deposit fault userId profileId amount w).2 in
  (o = Resolved Ok ∨ o = Resolved InternalError →
   pending w' !! next_transaction w = Some [] ∧
   next_transaction w' = S (next_transaction w) ∧
   ∀ t, t ≠ next_transaction w → pending w' !! t = pending w !! t) ∧
  (o ≠ Resolved Ok → o ≠ Resolved InternalError → w' = w).
Proof.
  cbn zeta.
  destruct (deposit_cases fault userId profileId amount w)
    as [(r & H & Hr & Hr')|(q & cap & -> & Hne & Hq & Hcap & Hle)].
  - rewrite H. cbn. split; [|done]. intros [[= ->]|[= ->]]; done.
  - rewrite (deposit_accepted fault userId profileId q w cap) by done.
    cbn. split.
    + intros _. rewrite lookup_insert_eq. split_and!; [done..|].
      intros t Ht. by rewrite lookup_insert_ne.
    + destruct (_ || _); done.
Qed.

Lemma deposit_leaves_a_transaction_open_witness :
  let w' := (deposit no_fault 2 1 (Js.num 25) (store 500 0 200)).2 in
  pending w' !! 0%nat = Some [] ∧ next_transaction w' = 1%nat.
Proof.
  intros w'.
  destruct (deposit_leaves_a_transaction_open no_fault 2 1 (Js.num 25)
              (store 500 0 200)) as [Hopen _].
  destruct Hopen as (Hp & Hn & _); [left; reflexivity|]. done.
Defined.

(** ** The cap is checked request by request *)



(** ** Paying a job and the outstanding total *)




(** ** The reading handlers *)

Lemma getUnpaidJobs_lookup profileId w rows i j :
  (getUnpaidJobs profileId w).1 = Resolved rows →
  rows !! i = Some j ↔
  Jobs (db w) !! i = Some j ∧ unpaid_for profileId (db w) j = true.
Proof.
  unfold getUnpaidJobs, Job_findAll. cbn. intros [= <-].
  by rewrite map_lookup_filter_Some.
Qed.

(** X18.  A job that [GET /jobs/unpaid] lists for the client of its
    contract, with both profiles in the table, is paid by the pay handler;
    afterwards it is on nobody's list of unpaid jobs, and the other jobs
    are listed as before. *)
Theorem paid_job_leaves_the_unpaid_list
    now jobId profileId w rows j c pc pk :
  (getUnpaidJobs profileId w).1 = Resolved rows →
  rows !! jobId = Some j →
  Contracts (db w) !! ContractId j = Some c →
  ClientId c = profileId →
  Profiles (db w) !! ClientId c = Some pc →
  Profiles (db w) !! ContractorId c = Some pk →
  ∃ w',
    payJob no_fault now jobId profileId w = (Resolved Ok, w') ∧
    ∀ anyone rows',
      (getUnpaidJobs anyone w').1 = Resolved rows' →
      rows' !! jobId = None ∧
      ∀ i anyrows, i ≠ jobId →
        (getUnpaidJobs anyone w).1 = Resolved anyrows →
        rows' !! i = anyrows !! i.
Proof.
  intros Hrows Hlisted Hc Hp Hpc Hpk.
  apply (getUnpaidJobs_lookup _ _ _ _ _ Hrows) in Hlisted as [Hj Hun].
  assert (Hpaid : paid j = None).
  { unfold unpaid_for in Hun. apply andb_true_iff in Hun as [_ Hun].
    by apply bool_decide_eq_true in Hun. }
  rewrite (payJob_run no_fault now jobId profileId w j c pc pk)
    by (try done; by rewrite Hpaid).
  eexists. split; [reflexivity|]. cbn [db applied no_fault].
  intros anyone rows'. unfold getUnpaidJobs, Job_findAll. cbn.
  intros [= <-]. split.
  - apply map_lookup_filter_None. right. intros j'.
    rewrite lookup_alter_eq, Hj. cbn. intros [= <-].
    unfold unpaid_for. cbn. by rewrite andb_false_r.
  - intros i anyrows Hi [= <-]. apply option_eq. intros x.
    rewrite !map_lookup_filter_Some, lookup_alter_ne by done. done.
Qed.

Lemma paid_job_leaves_the_unpaid_list_witness :
  ∃ w',
    payJob no_fault 99 1 1 (store 500 0 200) = (Resolved Ok, w') ∧
    ∀ anyone rows',
      (getUnpaidJobs anyone w').1 = Resolved rows' →
      rows' !! 1 = None ∧
      ∀ i anyrows, i ≠ 1 →
        (getUnpaidJobs anyone (store 500 0 200)).1 = Resolved anyrows →
        rows' !! i = anyrows !! i.
Proof.
  apply (paid_job_leaves_the_unpaid_list 99 1 1 (store 500 0 200)
           (<[1 := mkJob 1 200 None None]> ∅)
           (mkJob 1 200 None None) (mkContract 1 2)
           (mkProfile 500 client) (mkProfile 0 contractor));
    [vm_compute; reflexivity | reflexivity..].
Defined.

Lemma outstanding_none d profileId :
  (∀ i j, Jobs d !! i = Some j → unpaid_of profileId d j = false) →
  outstanding d profileId = 0%Q.
Proof.
  unfold outstanding. generalize (unpaid_of profileId d). intros cond.
  induction (Jobs d) as [|i j rows Hi Hfirst IH] using map_first_key_ind.
  - by rewrite map_fold_empty.
  - intros Hnone. rewrite map_fold_insert_first_key by done.
    rewrite (Hnone i j) by apply lookup_insert_eq.
    apply IH. intros i' j' Hi'. apply (Hnone i').
    rewrite lookup_insert_ne; [done|]. intros ->. congruence.
Qed.

(** X19.  A profile for which [GET /jobs/unpaid] lists no job cannot
    deposit: every positive amount to another profile is refused for
    exceeding the cap, and the world is unchanged. *)
Theorem nothing_listed_nothing_deposited fault userId profileId q w :
  (getUnpaidJobs profileId w).1 = Resolved ∅ →
  userId ≠ profileId → (0 < q)%Q →
  deposit fault userId profileId (Js.num q) w
  = (Resolved DepositExceedsCap, w).
Proof.
  intros Hrows Hne Hq.
  destruct (cap_spec (db w) profileId) as (cap & Hcap & Hval).
  rewrite outstanding_none in Hval.
  - rewrite (deposit_run fault userId profileId q w cap) by done.
    assert (Hle : Qle_bool q cap = false).
    { apply not_true_iff_false. intros H. apply Qle_bool_iff in H.
      rewrite Hval in H. apply (Qlt_not_le _ _ Hq).
      eapply Qle_trans; [exact H|]. discriminate. }
    by rewrite Hle.
  - intros i j Hj. destruct (unpaid_of profileId (db w) j) eqn:Hun; [|done].
    assert (Hl : (∅ : gmap Z Job) !! i = Some j).
    { apply (getUnpaidJobs_lookup _ _ _ _ _ Hrows). split; [done|].
      unfold unpaid_of in Hun. unfold unpaid_for.
      destruct (Contracts (db w) !! ContractId j); [|done].
      apply andb_true_iff in Hun as [-> ->]. by rewrite orb_true_r. }
    by rewrite lookup_empty in Hl.
Qed.

Lemma nothing_listed_nothing_deposited_witness :
  deposit no_fault 1 3 (Js.num 1) (store 500 0 200)
  = (Resolved DepositExceedsCap, store 500 0 200).
Proof.
  apply (nothing_listed_nothing_deposited no_fault 1 3 1 (store 500 0 200));
    [vm_compute; reflexivity | lia | reflexivity].
Defined.

(** X20.  A job whose [paid] column is [false] is on nobody's list of
    unpaid jobs and counts in nobody's outstanding total, yet the pay
    handler pays it for the client of its contract like an unpaid one. *)
Theorem job_marked_false_is_payable_but_not_listed
    now jobId profileId w j c pc pk :
  Jobs (db w) !! jobId = Some j →
  Contracts (db w) !! ContractId j = Some c →
  ClientId c = profileId →
  Profiles (db w) !! ClientId c = Some pc →
  Profiles (db w) !! ContractorId c = Some pk →
  paid j = Some false →
  (∀ anyone rows,
     (getUnpaidJobs anyone w).1 = Resolved rows → rows !! jobId = None) ∧
  (∀ anyone, unpaid_of anyone (db w) j = false) ∧
  ∃ w' j',
    payJob no_fault now jobId profileId w = (Resolved Ok, w') ∧
    Jobs (db w') !! jobId = Some j' ∧ paid j' = Some true.
Proof.
  intros Hj Hc Hp Hpc Hpk Hpaid. split_and!.
  - intros anyone rows Hrows.
    destruct (rows !! jobId) as [j0|] eqn:Hl; [|done].
    apply (getUnpaidJobs_lookup _ _ _ _ _ Hrows) in Hl as [Hj0 Hun].
    rewrite Hj in Hj0. injection Hj0 as <-.
    unfold unpaid_for in Hun. rewrite Hpaid in Hun.
    by rewrite andb_false_r in Hun.
  - intros anyone. unfold unpaid_of. rewrite Hpaid. by rewrite andb_false_r.
  - rewrite (payJob_run no_fault now jobId profileId w j c pc pk)
      by (try done; by rewrite Hpaid).
    eexists _, (set_paid true now j). split; [reflexivity|].
    cbn. by rewrite lookup_alter_eq, Hj.
Qed.

Lemma job_marked_false_is_payable_but_not_listed_witness :
  let w :=
    mkWorld
      (mkDB (<[1 := mkProfile 500 client]>
               (<[2 := mkProfile 0 contractor]> ∅))
            (<[1 := mkContract 1 2]> ∅)
            (<[1 := mkJob 1 200 (Some false) None]> ∅))
      ∅ 0%nat in
  (∀ anyone rows,
     (getUnpaidJobs anyone w).1 = Resolved rows → rows !! 1 = None) ∧
  ∃ w' j',
    payJob no_fault 99 1 1 w = (Resolved Ok, w') ∧
    Jobs (db w') !! 1 = Some j' ∧ paid j' = Some true.
Proof.
  intros w.
  destruct (job_marked_false_is_payable_but_not_listed 99 1 1 w
              (mkJob 1 200 (Some false) None) (mkContract 1 2)
              (mkProfile 500 client) (mkProfile 0 contractor))
    as (Hl & _ & Hpay); [reflexivity..|].
  done.
Defined.

(** X21.  [GET /contracts/:id] reads only: it answers the contract exactly
    when the contract exists and the caller is its contractor, and 404
    exactly when there is no such contract; the client of a contract with
    another contractor gets 404 for the contract whose jobs the pay handler
    lets it pay. *)
Theorem getContract_is_for_the_contractor id profileId w :
  (getContract id profileId w).2 = w ∧
  (∀ c, (getContract id profileId w).1 = Resolved (Json c)
        ↔ Contracts (db w) !! id = Some c ∧ ContractorId c = profileId) ∧
  ((getContract id profileId w).1 = Resolved (Status 404)
   ↔ ∀ c, Contracts (db w) !! id = Some c → ContractorId c ≠ profileId) ∧
  (∀ now jobId j c pc pk,
     Jobs (db w) !! jobId = Some j → ContractId j = id →
     Contracts (db w) !! id = Some c →
     ClientId c = profileId → ClientId c ≠ ContractorId c →
     Profiles (db w) !! ClientId c = Some pc →
     Profiles (db w) !! ContractorId c = Some pk →
     paid j ≠ Some true →
     (getContract id profileId w).1 = Resolved (Status 404) ∧
     (payJob no_fault now jobId profileId w).1 = Resolved Ok).
Proof.
  unfold getContract, Contract_findOne. rewrite bind_run. cbn.
  destruct (Contracts (db w) !! id) as [c|] eqn:Hc; cbn.
  - destruct (decide (ContractorId c = profileId)) as [Hk|Hk]; cbn.
    + split_and!; [done| | |].
      * intros c'. split; [by intros [= <-]|by intros [[= <-] _]].
      * split; [discriminate|]. intros H. by destruct (H c).
      * intros now jobId j c' pc pk _ _ [= <-] Hcl Hne. congruence.
    + split_and!; [done| | |].
      * intros c'. split; [discriminate|]. intros [[= <-] ?]. done.
      * split; [|done]. intros _ c' [= <-]. done.
      * intros now jobId j c' pc pk Hj Hid [= <-] Hcl Hne Hpc Hpk Hpaid.
        split; [done|]. subst id.
        by rewrite (payJob_run no_fault now jobId profileId w j c pc pk).
  - split_and!; [done| | |].
    + intros c. split; [discriminate|]. by intros [? _].
    + split; [|done]. intros _ c. discriminate.
    + intros now jobId j c pc pk _ _ Hc'. discriminate.
Qed.

Lemma getContract_is_for_the_contractor_witness :
  (getContract 1 2 (store 500 0 200)).1
    = Resolved (Json (mkContract 1 2)) ∧
  (getContract 1 1 (store 500 0 200)).1 = Resolved (Status 404) ∧
  (payJob no_fault 99 1 1 (store 500 0 200)).1 = Resolved Ok.
Proof.
  destruct (getContract_is_for_the_contractor 1 2 (store 500 0 200))
    as (_ & Hjson & _).
  destruct (getContract_is_for_the_contractor 1 1 (store 500 0 200))
    as (_ & _ & _ & Hclient).
  split; [apply Hjson; split; reflexivity|].
  apply (Hclient 99 1 (mkJob 1 200 None None) (mkContract 1 2)
           (mkProfile 500 client) (mkProfile 0 contractor));
    [reflexivity | reflexivity | reflexivity | reflexivity | cbn; lia
    | reflexivity | reflexivity | discriminate].
Defined.

(** * The request as it arrives: proofs *)

(** ** Rounding *)



(** ** Running [Raw.transfer] *)

(** A transfer of a number issues a debit and a credit, outside any
    transaction. *)
Lemma Raw_transfer_run fl splice fault from to q tx w :
  let w0 := match tx with
            | Some _ => w
            | None => (sequelize_transaction_begin w).2
            end in
  let t := match tx with Some t => t | None => next_transaction w end in
  let debit := Raw.ProfileUpdate (Raw.balance_minus (Raw.number q)) from in
  let credit := Raw.ProfileUpdate (Raw.balance_plus (Raw.number q)) to in
  Raw.transfer fl splice fault from to (Raw.number q) tx w =
  (settle (fault debit || fault credit) t,
   mkWorld (kept (fault credit) (credited fl q to)
              (kept (fault debit) (debited fl q from) (db w0)))
           (pending w0) (next_transaction w0)).
Proof.
  unfold Raw.transfer. rewrite bind_run.
  destruct tx as [t|]; [destruct w|]; cbn -[kept debited credited];
    unfold Raw.Profile_update; cbn -[kept debited credited];
    rewrite bind_run; cbn -[kept debited credited].
  all: unfold Raw.query, kept, settle, debited, credited; cbn;
    destruct (fault (Raw.ProfileUpdate (Raw.balance_minus _) from));
    destruct (fault (Raw.ProfileUpdate (Raw.balance_plus _) to));
    cbn; reflexivity.
Qed.

Lemma Raw_transfer_resolved fl splice fault from to q tx w t w' :
  Raw.transfer fl splice fault from to (Raw.number q) tx w = (Resolved t, w') →
  db w' = credited fl q to (debited fl q from (db w)).
Proof.
  rewrite Raw_transfer_run. unfold settle, kept.
  destruct (fault (Raw.ProfileUpdate (Raw.balance_minus _) from));
    destruct (fault (Raw.ProfileUpdate (Raw.balance_plus _) to));
    cbn; intros [= <- <-]; destruct tx; reflexivity.
Qed.

Lemma Raw_transfer_no_fault fl splice from to q tx w :
  ∃ t w',
    Raw.transfer fl splice Raw.no_fault from to (Raw.number q) tx w
      = (Resolved t, w') ∧
    db w' = credited fl q to (debited fl q from (db w)).
Proof.
  rewrite Raw_transfer_run. do 2 eexists. split; [reflexivity|].
  destruct tx; reflexivity.
Qed.

(** In exact arithmetic, on ids that are rows and amounts that are
    numbers, [Raw.transfer] is [transfer]. *)
Lemma Raw_transfer_exact splice from to q tx w :
  Raw.transfer exact splice Raw.no_fault (Some from) (Some to)
    (Raw.number q) tx w
  = transfer no_fault from to q tx w.
Proof.
  rewrite Raw_transfer_run, transfer_run. destruct tx; reflexivity.
Qed.

(** ** The sum of the balances under rounding *)

Lemma rounded_lookup (f : Q → Q) i k d :
  Profiles (Raw.update_balance f (Some i) d) !! k
  = if decide (i = k)
    then (λ p, mkProfile (f (balance p)) (type p)) <$> Profiles d !! i
    else Profiles d !! k.
Proof. cbn. apply lookup_alter. Qed.

Lemma rounded_total (f : Q → Q) i d p :
  Profiles d !! i = Some p →
  (total_balance (Raw.update_balance f (Some i) d)
   == total_balance d - balance p + f (balance p))%Q.
Proof.
  intros Hp. unfold total_balance. cbn.
  by rewrite (total_alter _ _ _ _ Hp).
Qed.

(** A debit and a credit of the same amount on two different existing
    profiles, neither of them rounded, leave the sum as it was. *)
Lemma exact_move_total fl q from to d :
  is_Some (Profiles d !! from) → is_Some (Profiles d !! to) → from ≠ to →
  (∀ p, Profiles d !! from = Some p →
        (fl (balance p - q) == balance p - q)%Q) →
  (∀ p, Profiles d !! to = Some p →
        (fl (balance p + q) == balance p + q)%Q) →
  (total_balance (credited fl q (Some to) (debited fl q (Some from) d))
   == total_balance d)%Q.
Proof.
  intros [pf Hf] [pt Ht] Hne Hef Het. unfold credited, debited.
  rewrite (rounded_total _ to _ pt).
  - rewrite (rounded_total _ from _ pf) by done.
    rewrite (Hef pf Hf), (Het pt Ht). ring.
  - rewrite rounded_lookup. by rewrite decide_False.
Qed.

Lemma rounded_keeps_profiles fl q from to d i :
  is_Some (Profiles (credited fl q (Some to) (debited fl q (Some from) d))
             !! i)
  ↔ is_Some (Profiles d !! i).
Proof.
  unfold credited, debited. rewrite !rounded_lookup.
  repeat case_decide; subst; rewrite ?fmap_is_Some; done.
Qed.

(** C3, as amended.  Conservation of money when nothing is rounded: along
    any sequence of transfers between existing, distinct profiles that
    all succeed and none of whose updates is rounded, whatever the
    rounding of the arithmetic is elsewhere, the sum of all balances is
    the same at the end as at the start. *)
Theorem exact_transfers_conserve_total fl fault calls w w' :
  Forall (λ '(from, to, _),
            is_Some (Profiles (db w) !! from) ∧
            is_Some (Profiles (db w) !! to) ∧ from ≠ to) calls →
  exact_updates fl calls (db w) →
  Raw.transfers fl fault calls w = (Resolved tt, w') →
  (total_balance (db w') == total_balance (db w))%Q.
Proof.
  revert w. induction calls as [|[[from to] amount] calls IH];
    intros w Hall Hexact.
  - cbn. by intros [= <-].
  - apply Forall_cons in Hall as [(Hf & Ht & Hne) Hall].
    destruct Hexact as (Hef & Het & Hexact).
    cbn [Raw.transfers]. rewrite bind_run.
    destruct (Raw.transfer fl Raw.no_splice fault (Some from) (Some to)
                (Raw.number amount) None w) as [[t|e] w1] eqn:Hrun;
      [|discriminate].
    pose proof (Raw_transfer_resolved _ _ _ _ _ _ _ _ _ _ Hrun) as Hdb.
    intros Hrest.
    rewrite <- (exact_move_total fl amount from to (db w)) by done.
    rewrite <- Hdb. apply IH; [|by rewrite Hdb|exact Hrest].
    eapply Forall_impl; [exact Hall|].
    intros [[f' t'] a'] (? & ? & ?).
    rewrite Hdb, !rounded_keeps_profiles. done.
Qed.

Lemma exact_transfers_conserve_total_witness :
  let calls : list (Z * Z * Q) := [(1, 2, 30%Q); (2, 1, 45%Q)] in
  (total_balance
     (db (Raw.transfers b64 Raw.no_fault calls (store 500 0 200)).2)
   == total_balance (db (store 500 0 200)))%Q.
Proof.
  intros calls.
  apply (exact_transfers_conserve_total b64 Raw.no_fault calls
           (store 500 0 200)).
  - repeat constructor; vm_compute; eauto; discriminate.
  - cbn [exact_updates calls].
    split_and!; [intros p Hp; vm_compute in Hp; injection Hp as <-;
                 vm_compute; reflexivity ..| exact I].
  - vm_compute. reflexivity.
Defined.

(** C3, as stated, fails: with the rounding of binary64, the transfer of
    1e21 from a profile at 500 to a profile at 0 succeeds, leaves the
    first at -1e21 and the second at 1e21, and the sum of the balances,
    which was 500, is 0. *)
Lemma rounded_transfer_changes_the_total :
  ∃ w',
    Raw.transfers b64 Raw.no_fault [(1, 2, e21)] (store 500 0 200)
      = (Resolved tt, w') ∧
    (total_balance (db (store 500 0 200)) == 500)%Q ∧
    (total_balance (db w') == 0)%Q ∧
    ¬ (total_balance (db w') == total_balance (db (store 500 0 200)))%Q.
Proof.
  exists (Raw.transfers b64 Raw.no_fault [(1, 2, e21)] (store 500 0 200)).2.
  split_and!; [vm_compute; reflexivity..|].
  vm_compute. discriminate.
Qed.

(** X1.  A transfer of a number from an existing profile to itself
    succeeds, touches no other profile and keeps the profile's type; the
    balance ends at (balance - amount) + amount as the store computes it.
    That is the old balance when the old balance is a number of the
    arithmetic and the subtraction is not rounded; it need not be
    otherwise (with binary64, 500 and 1e21 give 0). *)
Theorem transfer_to_self fl splice i q tx w p :
  Profiles (db w) !! i = Some p →
  ∃ t w',
    Raw.transfer fl splice Raw.no_fault (Some i) (Some i) (Raw.number q) tx w
      = (Resolved t, w') ∧
    Profiles (db w') !! i
      = Some (mkProfile (fl (fl (balance p - q) + q))%Q (type p)) ∧
    (∀ k, k ≠ i → Profiles (db w') !! k = Profiles (db w) !! k) ∧
    ((∀ x y, (x == y)%Q → (fl x == fl y)%Q) →
     (fl (balance p) == balance p)%Q →
     (fl (balance p - q) == balance p - q)%Q →
     (fl (fl (balance p - q) + q) == balance p)%Q).
Proof.
  intros Hp.
  destruct (Raw_transfer_no_fault fl splice (Some i) (Some i) q tx w)
    as (t & w' & Hrun & Hdb).
  exists t, w'. rewrite Hdb. unfold credited, debited.
  split_and!; [done| | |].
  - rewrite !rounded_lookup, !decide_True, Hp by done. reflexivity.
  - intros k Hk. rewrite !rounded_lookup, !decide_False by done. done.
  - intros Hproper Hb Hsub.
    rewrite <- Hb at 2. apply Hproper. rewrite Hsub. ring.
Qed.

Lemma transfer_to_self_witness :
  (∃ t w',
     Raw.transfer b64 Raw.no_splice Raw.no_fault (Some 1) (Some 1)
       (Raw.number 30) None (store 500 0 200) = (Resolved t, w') ∧
     Profiles (db w') !! 1 = Some (mkProfile 500 client)) ∧
  (∃ t w',
     Raw.transfer b64 Raw.no_splice Raw.no_fault (Some 1) (Some 1)
       (Raw.number e21) None (store 500 0 200) = (Resolved t, w') ∧
     Profiles (db w') !! 1 = Some (mkProfile 0 client)).
Proof.
  split.
  - destruct (transfer_to_self b64 Raw.no_splice 1 30 None (store 500 0 200)
                (mkProfile 500 client)) as (t & w' & Hrun & Hp & _);
      [reflexivity|].
    exists t, w'. split; [exact Hrun|]. rewrite Hp. vm_compute. reflexivity.
  - destruct (transfer_to_self b64 Raw.no_splice 1 e21 None (store 500 0 200)
                (mkProfile 500 client)) as (t & w' & Hrun & Hp & _);
      [reflexivity|].
    exists t, w'. split; [exact Hrun|]. rewrite Hp. vm_compute. reflexivity.
Defined.

(** ** Running [Raw.deposit] *)

Lemma Raw_deposit_self fl row_id splice fault id amount w :
  Raw.deposit fl row_id splice fault id id amount w
  = (Resolved SelfDepositForbidden, w).
Proof. unfold Raw.deposit. by rewrite String.eqb_refl. Qed.

(** The cap is a number: [(25 * total) / 100], each operation rounded. *)
Lemma Raw_cap_value fl cond rows :
  ∃ t,
    Js.to_number (Raw.sum_rows fl price cond rows) = Js.num t ∧
    Raw.maxDepositValue fl (Raw.sum_rows fl price cond rows)
    = Js.num (fl (fl (25 * t) / 100))%Q.
Proof.
  assert (Hshape : Raw.sum_rows fl price cond rows = Js.null
                   ∨ ∃ t, Raw.sum_rows fl price cond rows = Js.num t).
  { unfold Raw.sum_rows.
    induction rows as [|i j rows Hi Hfirst IH] using map_first_key_ind.
    - left. by rewrite map_fold_empty.
    - rewrite map_fold_insert_first_key by done.
      destruct (cond j); [|exact IH]. right.
      destruct IH as [->|[t ->]]; eauto. }
  destruct Hshape as [->|[t ->]]; eexists; split; reflexivity.
Qed.

(** The deposit of a number once the two first tests are passed. *)
Lemma Raw_deposit_run fl row_id splice fault userId profileId q w cap :
  userId ≠ profileId → (0 < q)%Q →
  Raw.maxDepositValue fl
    (Raw.sum_rows fl price (Raw.unpaid_of (row_id profileId) (db w))
       (Jobs (db w))) = Js.num cap →
  let debit :=
    Raw.ProfileUpdate (Raw.balance_minus (Raw.number q))
      (row_id profileId) in
  let credit :=
    Raw.ProfileUpdate (Raw.balance_plus (Raw.number q)) (row_id userId) in
  Raw.deposit fl row_id splice fault userId profileId (Raw.number q) w =
  if Qle_bool q cap
  then (if fault debit || fault credit
        then Resolved InternalError else Resolved Ok,
        mkWorld (kept (fault credit) (credited fl q (row_id userId))
                   (kept (fault debit) (debited fl q (row_id profileId))
                      (db w)))
                (<[next_transaction w := []]> (pending w))
                (S (next_transaction w)))
  else (Resolved DepositExceedsCap, w).
Proof.
  intros Hne Hq Hcap debit credit. unfold Raw.deposit.
  assert (Heqb : String.eqb userId profileId = false)
    by (by apply String.eqb_neq).
  rewrite Heqb.
  assert (Hvalid : Raw.falsy (Raw.number q)
                   || Raw.le (Raw.number q) (Js.num 0) = false).
  { cbn. apply orb_false_intro.
    - destruct (Qeq_bool q 0) eqn:E; [|done].
      apply Qeq_bool_iff in E. rewrite E in Hq. by apply Qlt_irrefl in Hq.
    - destruct (Qle_bool q 0) eqn:E; [|done].
      apply Qle_bool_iff in E. by apply Qlt_not_le in Hq. }
  rewrite Hvalid. rewrite bind_run. unfold Raw.Job_sum at 1. cbn beta iota.
  rewrite Hcap. unfold Raw.gt. cbn [Raw.to_number Js.to_number].
  destruct (Qle_bool q cap); cbn [negb]; [|reflexivity].
  unfold try_catch. rewrite bind_run, Raw_transfer_run.
  cbn -[kept debited credited]. fold debit credit.
  destruct (fault debit), (fault credit); reflexivity.
Qed.

Lemma Raw_deposit_invalid fl row_id splice fault userId profileId q w :
  userId ≠ profileId → ¬ (0 < q)%Q →
  Raw.deposit fl row_id splice fault userId profileId (Raw.number q) w
  = (Resolved InvalidAmount, w).
Proof.
  intros Hne Hq. unfold Raw.deposit.
  assert (Heqb : String.eqb userId profileId = false)
    by (by apply String.eqb_neq).
  rewrite Heqb.
  assert (Hinv : Raw.falsy (Raw.number q)
                 || Raw.le (Raw.number q) (Js.num 0) = true).
  { cbn. apply orb_true_iff. right. apply Qle_bool_iff.
    by apply Qnot_lt_le. }
  by rewrite Hinv.
Qed.





(** C7, on the code.  The test is on the two id strings: a deposit whose
    two ids are the same string is refused, whatever the amount and the
    store.  Two different strings that the store reads as the same row
    pass it: with payer "1", beneficiary "01", unpaid jobs of 100 and an
    amount of 25, the deposit to oneself is accepted; the payer's row is
    debited and credited. *)
Theorem deposit_to_self_passes_with_another_spelling :
  (∀ fl row_id splice fault id amount w,
     Raw.deposit fl row_id splice fault id id amount w
     = (Resolved SelfDepositForbidden, w)) ∧
  decimal_id "01" = decimal_id "1" ∧
  ∃ w',
    Raw.deposit b64 decimal_id Raw.no_splice Raw.no_fault "01" "1"
      (Raw.number 25) (store 500 0 100) = (Resolved Ok, w') ∧
    db w' = credited b64 25 (Some 1) (debited b64 25 (Some 1)
              (db (store 500 0 100))) ∧
    Profiles (db w') !! 1 = Some (mkProfile 500 client).
Proof.
  split_and!; [apply Raw_deposit_self | reflexivity |].
  eexists. split_and!; [vm_compute; reflexivity..].
Qed.

(** What a deposit of a number leaves in the tables. *)
Lemma Raw_deposit_db fl row_id splice fault userId profileId q w :
  let debit :=
    Raw.ProfileUpdate (Raw.balance_minus (Raw.number q))
      (row_id profileId) in
  let credit :=
    Raw.ProfileUpdate (Raw.balance_plus (Raw.number q)) (row_id userId) in
  let r := Raw.deposit fl row_id splice fault userId profileId
             (Raw.number q) w in
  (r.1 ≠ Resolved Ok ∧ db r.2 = db w) ∨
  (r.1 ≠ Resolved Ok ∧ (fault debit || fault credit = true) ∧
   db r.2 = kept (fault credit) (credited fl q (row_id userId))
              (kept (fault debit) (debited fl q (row_id profileId))
                 (db w))) ∨
  (r.1 = Resolved Ok ∧ userId ≠ profileId ∧
   db r.2 = credited fl q (row_id userId)
              (debited fl q (row_id profileId) (db w))).
Proof.
  cbn zeta.
  destruct (decide (userId = profileId)) as [->|Hne].
  { rewrite Raw_deposit_self. by left. }
  destruct (Qlt_le_dec 0 q) as [Hq|Hq].
  2:{ rewrite Raw_deposit_invalid by (by try apply Qle_not_lt). by left. }
  destruct (Raw_cap_value fl (Raw.unpaid_of (row_id profileId) (db w))
              (Jobs (db w))) as (t & _ & Hcap).
  rewrite (Raw_deposit_run fl row_id splice fault userId profileId q w _)
    by done.
  destruct (Qle_bool q _); [|by left].
  destruct (fault _) eqn:Hd; [by right; left|].
  destruct (fault (Raw.ProfileUpdate (Raw.balance_plus _) _)) eqn:Hc;
    [by right; left|].
  right; right. done.
Qed.

(** X13.  Whenever a deposit of a number answers 200, if the two ids are
    two different existing rows and neither update is rounded, the sum of
    all balances is what it was before the call, whatever the rounding
    elsewhere and the storage layer. *)
Theorem deposit_ok_conserves_total
    fl row_id splice fault userId profileId q w w' payer beneficiary :
  row_id profileId = Some payer →
  row_id userId = Some beneficiary →
  payer ≠ beneficiary →
  is_Some (Profiles (db w) !! payer) →
  is_Some (Profiles (db w) !! beneficiary) →
  exact_updates fl [(payer, beneficiary, q)] (db w) →
  Raw.deposit fl row_id splice fault userId profileId (Raw.number q) w
    = (Resolved Ok, w') →
  (total_balance (db w') == total_balance (db w))%Q.
Proof.
  intros Hpayer Hbeneficiary Hne Hp Hb (Hdebit & Hcredit & _) Hrun.
  destruct (Raw_deposit_db fl row_id splice fault userId profileId q w)
    as [[Hr _]|[(Hr & _)|(_ & _ & Hdb)]];
    rewrite Hrun in *; [done..|].
  cbn [snd] in Hdb. rewrite Hdb, Hpayer, Hbeneficiary.
  by apply exact_move_total.
Qed.

Lemma deposit_ok_conserves_total_witness :
  (total_balance
     (db (Raw.deposit b64 decimal_id Raw.no_splice Raw.no_fault "2" "1"
            (Raw.number 25) (store 500 0 200)).2)
   == total_balance (db (store 500 0 200)))%Q.
Proof.
  apply (deposit_ok_conserves_total b64 decimal_id Raw.no_splice
           Raw.no_fault "2" "1" 25 (store 500 0 200) _ 1 2).
  - reflexivity.
  - reflexivity.
  - discriminate.
  - vm_compute. eauto.
  - vm_compute. eauto.
  - cbn [exact_updates].
    split_and!; [intros p Hp; vm_compute in Hp; injection Hp as <-;
                 vm_compute; reflexivity ..| exact I].
  - vm_compute. reflexivity.
Defined.

(** X15.  Whatever its outcome, a deposit of a number changes no job, no
    contract and no profile other than the rows that the store reads in
    the two ids, and it neither adds nor removes a profile. *)
Theorem deposit_frame fl row_id splice fault userId profileId q w :
  let w' := (Raw.deposit fl row_id splice fault userId profileId
               (Raw.number q) w).2 in
  Jobs (db w') = Jobs (db w) ∧
  Contracts (db w') = Contracts (db w) ∧
  (∀ i, row_id profileId ≠ Some i → row_id userId ≠ Some i →
        Profiles (db w') !! i = Profiles (db w) !! i) ∧
  (∀ i, is_Some (Profiles (db w') !! i) ↔ is_Some (Profiles (db w) !! i)).
Proof.
  cbn zeta.
  assert (Hother : ∀ f j d i,
            j ≠ Some i →
            Profiles (Raw.update_balance f j d) !! i = Profiles d !! i).
  { intros f [j|] d i Hj; cbn; [|done].
    rewrite lookup_alter_ne; [done|congruence]. }
  assert (Hdom : ∀ f j d i,
            is_Some (Profiles (Raw.update_balance f j d) !! i)
            ↔ is_Some (Profiles d !! i)).
  { intros f [j|] d i; cbn; [|done].
    rewrite lookup_alter. case_decide; subst; rewrite ?fmap_is_Some; done. }
  assert (Hrest : ∀ f j d,
            Jobs (Raw.update_balance f j d) = Jobs d ∧
            Contracts (Raw.update_balance f j d) = Contracts d).
  { by intros f [j|] d. }
  destruct (Raw_deposit_db fl row_id splice fault userId profileId q w)
    as [[_ ->]|[(_ & _ & ->)|(_ & _ & ->)]]; [done| |].
  - unfold kept, credited, debited.
    destruct (fault _), (fault _); split_and!;
      rewrite ?(proj1 (Hrest _ _ _)), ?(proj2 (Hrest _ _ _)); try done;
      intros i; intros; rewrite ?Hdom, ?Hother by done; done.
  - unfold credited, debited. split_and!;
      rewrite ?(proj1 (Hrest _ _ _)), ?(proj2 (Hrest _ _ _)); try done;
      intros i; intros; rewrite ?Hdom, ?Hother by done; done.
Qed.

Lemma deposit_frame_witness :
  let w := store 500 0 200 in
  let w' := (Raw.deposit b64 decimal_id Raw.no_splice Raw.no_fault "2" "1"
               (Raw.number 25) w).2 in
  Jobs (db w') = Jobs (db w) ∧
  Contracts (db w') = Contracts (db w) ∧
  Profiles (db w') !! 3 = Profiles (db w) !! 3 ∧
  (is_Some (Profiles (db w') !! 2) ↔ is_Some (Profiles (db w) !! 2)).
Proof.
  intros w w'.
  destruct (deposit_frame b64 decimal_id Raw.no_splice Raw.no_fault "2" "1"
              25 w) as (Hj & Hc & Hp & Hd).
  split_and!; [exact Hj | exact Hc | | exact (Hd 2)].
  apply Hp; discriminate.
Defined.

(** ** Interleaved transfers *)

Lemma run_row_step fl i s d :
  Profiles (default d (Raw.run fl Raw.no_splice s d)) !! i
  = row_step fl i s (Profiles d !! i).
Proof.
  destruct s as [[[q|]|[q|]] [k|]]; cbn; try done;
    rewrite lookup_alter; case_decide; by subst.
Qed.

Lemma row_step_other fl i s r :
  Raw.target s ≠ Some i → row_step fl i s r = r.
Proof.
  destruct s as [[[q|]|[q|]] [k|]]; cbn; try done;
    intros Hk; rewrite decide_False; congruence.
Qed.

(** The row [i] after a schedule is the row after the statements of the
    schedule that name [i], in the order of the schedule. *)
Lemma run_schedule_row fl i schedule d :
  Profiles (Raw.run_schedule fl schedule d) !! i
  = foldl (λ r s, row_step fl i s r) (Profiles d !! i)
      (filter (λ s, Raw.target s = Some i) schedule).
Proof.
  unfold Raw.run_schedule. revert d.
  induction schedule as [|s schedule IH]; intros d; [done|].
  cbn [foldl]. rewrite IH, run_row_step.
  destruct (decide (Raw.target s = Some i)) as [Hs|Hs].
  - by rewrite filter_cons_True.
  - by rewrite filter_cons_False, row_step_other.
Qed.

(** A sequence of transfers that the store accepts runs their statements
    in order. *)
Lemma transfers_run_schedule fl order w :
  ∃ w',
    Raw.transfers fl Raw.no_fault order w = (Resolved tt, w') ∧
    db w' = Raw.run_schedule fl (concat (map Raw.statements_of order)) (db w).
Proof.
  revert w. induction order as [|[[from to] amount] order IH]; intros w.
  - by exists w.
  - cbn [Raw.transfers]. rewrite bind_run.
    destruct (Raw_transfer_no_fault fl Raw.no_splice (Some from) (Some to)
                amount None w) as (t & w1 & -> & Hdb).
    destruct (IH w1) as (w' & Hrun & Hdb').
    exists w'. split; [exact Hrun|]. by rewrite Hdb', Hdb.
Qed.

(** The statements on a row of transfers between different profiles:
    one for each transfer that touches the row. *)
Lemma statements_on_row i (calls : list (Z * Z * Q)) :
  Forall (λ '(from, to, _), from ≠ to) calls →
  filter (λ s, Raw.target s = Some i) (concat (map Raw.statements_of calls))
  = map (statement_on i) (filter (λ c, c.1.1 = i ∨ c.1.2 = i) calls).
Proof.
  induction 1 as [|[[from to] amount] calls Hne _ IH]; [done|].
  cbn [map concat]. rewrite filter_app, IH. cbn [Raw.statements_of].
  rewrite !filter_cons, filter_nil. cbn [Raw.target fst snd].
  destruct (decide (from = i)) as [->|Hf].
  - rewrite (decide_True (P := Some i = Some i)) by done.
    rewrite (decide_False (P := Some to = Some i)) by congruence.
    rewrite (decide_True (P := i = i ∨ to = i)) by (by left).
    cbn. by rewrite decide_True.
  - rewrite (decide_False (P := Some from = Some i)) by congruence.
    destruct (decide (to = i)) as [->|Ht].
    + rewrite (decide_True (P := Some i = Some i)) by done.
      rewrite (decide_True (P := from = i ∨ i = i)) by (by right).
      cbn. by rewrite decide_False.
    + rewrite (decide_False (P := Some to = Some i)) by congruence.
      rewrite (decide_False (P := from = i ∨ to = i)) by (by intros [?|?]).
      done.
Qed.

Lemma filter_all {A} (P : A → Prop) `{∀ x, Decision (P x)} (l : list A) :
  Forall P l → filter P l = l.
Proof.
  induction 1 as [|x l Hx _ IH]; [done|].
  by rewrite filter_cons_True, IH.
Qed.

Lemma filter_none {A} (P : A → Prop) `{∀ x, Decision (P x)} (l : list A) :
  Forall (λ x, ¬ P x) l → filter P l = [].
Proof.
  induction 1 as [|x l Hx _ IH]; [done|].
  by rewrite filter_cons_False.
Qed.

(** C9, as amended.  Transfers none of which is from a profile to itself,
    whose UPDATE statements the store runs one at a time in any
    interleaving and none of which it refuses, are linearizable per
    profile: for every profile there is a serial order of the transfers,
    each awaited before the next one starts, that leaves the profile's row
    as the interleaving does.  Every update reads the balance that the
    previous one wrote: none is lost. *)
Theorem interleaved_transfers_are_serial_per_profile
    fl (calls : list (Z * Z * Q)) schedule w i :
  Forall (λ '(from, to, _), from ≠ to) calls →
  schedule ≡ₚ concat (map Raw.statements_of calls) →
  ∃ order w',
    order ≡ₚ calls ∧
    Raw.transfers fl Raw.no_fault order w = (Resolved tt, w') ∧
    Profiles (Raw.run_schedule fl schedule (db w)) !! i
    = Profiles (db w') !! i.
Proof.
  intros Hne Hperm.
  pose proof (filter_Permutation (λ s, Raw.target s = Some i) _ _ Hperm)
    as Hrow.
  rewrite statements_on_row in Hrow by done.
  apply Permutation_map_inv in Hrow as (order_i & Heq & Hperm_i).
  set (rest := filter (λ c : Z * Z * Q, ¬ (c.1.1 = i ∨ c.1.2 = i)) calls).
  assert (Horder : order_i ++ rest ≡ₚ calls).
  { rewrite <- Hperm_i. apply filter_app_complement. }
  exists (order_i ++ rest).
  destruct (transfers_run_schedule fl (order_i ++ rest) w)
    as (w' & Hrun & Hdb).
  exists w'. split_and!; [exact Horder | exact Hrun |].
  rewrite Hdb, !run_schedule_row. f_equal.
  rewrite statements_on_row by (by rewrite Horder).
  rewrite Heq. f_equal. rewrite filter_app.
  assert (Hin : filter (λ c : Z * Z * Q, c.1.1 = i ∨ c.1.2 = i) order_i
                = order_i).
  { apply filter_all. rewrite <- Hperm_i. apply Forall_forall.
    intros c Hc. by apply list_elem_of_filter in Hc as [? _]. }
  assert (Hout : filter (λ c : Z * Z * Q, c.1.1 = i ∨ c.1.2 = i) rest = []).
  { apply filter_none. apply Forall_forall.
    intros c Hc. by apply list_elem_of_filter in Hc as [? _]. }
  by rewrite Hin, Hout, app_nil_r.
Qed.

Lemma interleaved_transfers_are_serial_per_profile_witness :
  let calls : list (Z * Z * Q) := [(1, 2, 30%Q); (2, 1, 45%Q)] in
  let schedule := [debit 1 30; debit 2 45; credit 2 30; credit 1 45] in
  ∃ order w',
    order ≡ₚ calls ∧
    Raw.transfers b64 Raw.no_fault order (store 500 0 200)
      = (Resolved tt, w') ∧
    Profiles (Raw.run_schedule b64 schedule (db (store 500 0 200))) !! 1
    = Profiles (db w') !! 1.
Proof.
  intros calls schedule.
  apply (interleaved_transfers_are_serial_per_profile b64 calls schedule
           (store 500 0 200) 1).
  - repeat constructor; discriminate.
  - unfold schedule, calls, debit, credit.
    cbn [map concat Raw.statements_of app].
    apply perm_skip, perm_swap.
Defined.

(** C9, as stated, fails for a transfer from a profile to itself, whose
    two updates are on the same row.  With binary64, on a balance of 0.1,
    the debit of a transfer of 0.2 from profile 1 to itself, then the
    credit of a transfer of 0.7 from profile 2 to profile 1, then the
    credit of the first transfer leave 0.8; the first transfer followed
    by the second leaves 0.7999999999999999, the second followed by the
    first 0.7999999999999998: no serial order of the two transfers leaves
    what the interleaving does. *)
Lemma interleaved_self_transfer_is_not_serial :
  let a := b64 (2 # 10) in
  let b := b64 (7 # 10) in
  let w := store (b64 (1 # 10)) 1 200 in
  let calls : list (Z * Z * Q) := [(1, 1, a); (2, 1, b)] in
  let schedule := [debit 1 a; credit 1 b; debit 2 b; credit 1 a] in
  schedule ≡ₚ concat (map Raw.statements_of calls) ∧
  Profiles (Raw.run_schedule b64 schedule (db w)) !! 1
  = Some (mkProfile (b64 (8 # 10)) client) ∧
  Profiles (db (Raw.transfers b64 Raw.no_fault [(1, 1, a); (2, 1, b)] w).2)
    !! 1
  = Some (mkProfile (b64 (7999999999999999 # 10000000000000000)) client) ∧
  Profiles (db (Raw.transfers b64 Raw.no_fault [(2, 1, b); (1, 1, a)] w).2)
    !! 1
  = Some (mkProfile (b64 (7999999999999998 # 10000000000000000)) client) ∧
  ∀ order w',
    order ≡ₚ calls →
    Raw.transfers b64 Raw.no_fault order w = (Resolved tt, w') →
    Profiles (db w') !! 1
    ≠ Profiles (Raw.run_schedule b64 schedule (db w)) !! 1.
Proof.
  intros a b w calls schedule.
  split_and!; [|vm_compute; reflexivity..|].
  - unfold schedule, calls, debit, credit.
    cbn [map concat Raw.statements_of app].
    apply perm_skip.
    etrans; [apply perm_swap|]. etrans; [apply perm_skip, perm_swap|].
    apply perm_swap.
  - intros order w' Hperm Hrun.
    symmetry in Hperm. apply Permutation_length_2_inv in Hperm as [->| ->];
      vm_compute in Hrun; injection Hrun as <-; vm_compute; discriminate.
Qed.

(** X22.  An amount that is not a number, is truthy and has no numeric
    value (a text such as "balance") passes the two tests on the amount
    and the test of the cap, whatever the unpaid jobs, and both UPDATEs go
    to the store with the text spliced in: when the store runs them the
    deposit answers 200 and the tables are what the store made of them,
    and when it refuses them the deposit answers 500 and the tables are
    unchanged. *)
Theorem deposit_of_text_reaches_the_store
    fl row_id splice userId profileId text w :
  let amount := Raw.other true None text in
  let debit :=
    Raw.ProfileUpdate (Raw.balance_minus amount) (row_id profileId) in
  let credit :=
    Raw.ProfileUpdate (Raw.balance_plus amount) (row_id userId) in
  userId ≠ profileId →
  (∀ d1 d2,
     splice debit (db w) = Some d1 → splice credit d1 = Some d2 →
     ∃ w',
       Raw.deposit fl row_id splice Raw.no_fault userId profileId amount w
         = (Resolved Ok, w') ∧
       db w' = d2) ∧
  (splice debit (db w) = None → splice credit (db w) = None →
   ∃ w',
     Raw.deposit fl row_id splice Raw.no_fault userId profileId amount w
       = (Resolved InternalError, w') ∧
     db w' = db w).
Proof.
  intros amount debit credit Hne. subst amount debit credit.
  assert (Heqb : String.eqb userId profileId = false)
    by (by apply String.eqb_neq).
  split.
  - intros d1 d2 H1 H2. unfold Raw.deposit. rewrite Heqb.
    cbn [Raw.falsy Raw.le Raw.to_number negb orb].
    rewrite bind_run.
    unfold Raw.Job_sum at 1. cbn beta iota.
    unfold Raw.gt. cbn [Raw.to_number].
    repeat (unfold mbind, mret, Async_bind, Async_ret, try_catch,
              Raw.transfer, Raw.Profile_update, Raw.query, Promise_all,
              sequelize_transaction_begin; cbn).
    rewrite H1. cbn. rewrite H2. cbn.
    eexists. split; reflexivity.
  - intros H1 H2. unfold Raw.deposit. rewrite Heqb.
    cbn [Raw.falsy Raw.le Raw.to_number negb orb].
    rewrite bind_run.
    unfold Raw.Job_sum at 1. cbn beta iota.
    unfold Raw.gt. cbn [Raw.to_number].
    repeat (unfold mbind, mret, Async_bind, Async_ret, try_catch,
              Raw.transfer, Raw.Profile_update, Raw.query, Promise_all,
              sequelize_transaction_begin; cbn).
    rewrite H1. cbn. rewrite H2. cbn.
    eexists. split; reflexivity.
Qed.

Lemma deposit_of_text_reaches_the_store_witness :
  ∃ w',
    Raw.deposit b64 decimal_id (splice_column b64) Raw.no_fault "2" "1"
      (Raw.other true None "balance") (store 500 7 200) = (Resolved Ok, w') ∧
    Profiles (db w') !! 1 = Some (mkProfile 0 client) ∧
    Profiles (db w') !! 2 = Some (mkProfile 14 contractor).
Proof.
  destruct (deposit_of_text_reaches_the_store b64 decimal_id
              (splice_column b64) "2" "1" "balance" (store 500 7 200))
    as [Hruns _]; [discriminate|].
  destruct (Hruns
              (Raw.update_balance (λ b, b64 (b - b)%Q) (Some 1)
                 (db (store 500 7 200)))
              (Raw.update_balance (λ b, b64 (b + b)%Q) (Some 2)
                 (Raw.update_balance (λ b, b64 (b - b)%Q) (Some 1)
                    (db (store 500 7 200)))))
    as (w' & Hrun & Hdb); [reflexivity | reflexivity |].
  exists w'. split; [exact Hrun|]. rewrite Hdb.
  split; vm_compute; reflexivity.
Defined.
